(** * ilium: a resizable in-memory character device

    Shallow embedding of [ilium.c] (a Linux character-device module keeping
    one growable byte buffer) and the properties of its write, read and
    seek entry points.

    Integer model (LP64 Linux kernel, built with wrapping signed arithmetic):
    - [long], [loff_t], [ssize_t] : 64-bit signed,   wrap written [wrap_s64];
    - [size_t]                    : 64-bit unsigned, wrap written [wrap_u64];
    - [int]                       : 32-bit signed,   wrap written [wrap_s32];
    - [unsigned int]              : 32-bit unsigned, wrap written [wrap_u32].
    Values are carried as [Z]; every conversion the C code performs is
    written out at the place where it happens. *)

From Stdlib Require Import ZArith List Lia Bool.
From Stdlib Require Import Init.Byte.
Import ListNotations.
Local Open Scope Z_scope.

(** ** Machine integers *)

Module MachInt.

Definition wrap_u64 (z : Z) : Z := z mod 2 ^ 64.
Definition wrap_s64 (z : Z) : Z := (z + 2 ^ 63) mod 2 ^ 64 - 2 ^ 63.
Definition wrap_u32 (z : Z) : Z := z mod 2 ^ 32.
Definition wrap_s32 (z : Z) : Z := (z + 2 ^ 31) mod 2 ^ 32 - 2 ^ 31.

End MachInt.
Import MachInt.

(** ** Kernel constants used by the module *)

Definition EINTR : Z := 4.
Definition ENOMEM : Z := 12.
Definition EFAULT : Z := 14.
Definition ERESTARTSYS : Z := 512.

Definition SEEK_SET : Z := 0.
Definition SEEK_CUR : Z := 1.
Definition SEEK_END : Z := 2.

(** Modelled from the spec: [PAGE_SIZE] is a kernel macro that the module's
    sources do not define; the spec fixes the initial capacity
    [PAGE_SIZE << 5] at 131072 bytes, that is a page of 4096 bytes. *)
Definition PAGE_SIZE : Z := 4096.

(** Largest byte count the VFS layer hands to a driver's read or write
    method ([INT_MAX & PAGE_MASK]). *)
Definition MAX_RW_COUNT : Z := 2 ^ 31 - PAGE_SIZE.

(** ** Outcomes of a kernel call

    A call either returns, or touches memory outside the region a pointer
    was obtained for (C gives that no meaning), or never leaves a loop. *)

Inductive outcome (A : Type) : Type :=
| Returns (a : A)
| Faults
| Diverges.

Arguments Returns {A} a.
Arguments Faults {A}.
Arguments Diverges {A}.

Definition bind {A B : Type} (m : outcome A) (k : A -> outcome B) : outcome B :=
  match m with
  | Returns a => k a
  | Faults => Faults
  | Diverges => Diverges
  end.

Notation "x <- m ;; k" := (bind m (fun x => k))
  (at level 61, m at next level, right associativity).

(** ** Memory regions and the copy primitives *)

Definition region := list byte.

Definition rlen (r : list byte) : Z := Z.of_nat (length r).

Definition ztake (n : Z) (r : list byte) : list byte := firstn (Z.to_nat n) r.
Definition zdrop (n : Z) (r : list byte) : list byte := skipn (Z.to_nat n) r.
Definition zfill (c : byte) (n : Z) : list byte := repeat c (Z.to_nat n).

(** [memcpy(dst, src, n)]: the first [n] bytes of [dst] become those of [src]. *)
Definition memcpy (dst src : region) (n : Z) : outcome region :=
  if (0 <=? n) && (n <=? rlen src) && (n <=? rlen dst)
  then Returns (ztake n src ++ zdrop n dst)
  else Faults.

(** [memset(dst + at, c, n)]. *)
Definition memset (dst : region) (at_ : Z) (c : byte) (n : Z) : outcome region :=
  if (0 <=? at_) && (0 <=? n) && (at_ + n <=? rlen dst)
  then Returns (ztake at_ dst ++ zfill c n ++ zdrop (at_ + n) dst)
  else Faults.

(** [copy_from_user(dst + at, buf, n)]; [buf] is the user memory starting at
    the user pointer.  The module ignores the primitive's return value. *)
Definition copy_from_user (dst : region) (at_ : Z) (buf : list byte) (n : Z)
  : outcome region :=
  if (0 <=? at_) && (0 <=? n) && (at_ + n <=? rlen dst) && (n <=? rlen buf)
  then Returns (ztake at_ dst ++ ztake n buf ++ zdrop (at_ + n) dst)
  else Faults.

(** [copy_to_user(buf, src + at, n)]: the bytes stored into the user buffer. *)
Definition copy_to_user (src : region) (at_ : Z) (n : Z) : outcome (list byte) :=
  if (0 <=? at_) && (0 <=? n) && (at_ + n <=? rlen src)
  then Returns (ztake n (zdrop at_ src))
  else Faults.

(** ** The page allocator, as seen by the module

    [__get_free_pages(GFP_KERNEL, order)] belongs to the kernel.  It is an
    oracle here: asked with an order it answers [None] (NULL) or the
    initial, unspecified content of the pages, byte by byte.  The module
    treats the pages obtained in [ilium_write] as a region of
    [capacity << 1] bytes; [nbytes] is that size. *)

Definition allocator := Z -> option (nat -> byte).

Definition get_free_pages (alloc : allocator) (order : Z) (nbytes : Z)
  : option region :=
  match alloc order with
  | None => None
  | Some junk => Some (map junk (seq 0 (Z.to_nat nbytes)))
  end.

(** [down_interruptible]: 0 once the semaphore is held, [-EINTR] when a
    signal ended the wait ([sig]). *)
Definition down_interruptible (sig : bool) : Z := if sig then - EINTR else 0.

(** ** The device and its entry points *)

Record ilium_dev : Type := mk_dev {
  data : region;        (* void *data: the array list *)
  size : Z;             (* long size *)
  capacity : Z;         (* long capacity *)
  pages_pow : Z         (* unsigned char pages_pow *)
}.

Record file : Type := mk_file { f_pos : Z (* loff_t f_pos *) }.

(** What a read or write entry point leaves behind: the value returned,
    the device, the value of [*offp], and for a read the bytes delivered. *)
Record io_result : Type := mk_io {
  retval : Z;
  dev_after : ilium_dev;
  offp_after : Z;
  delivered : list byte
}.

Record seek_result : Type := mk_seek {
  seek_retval : Z;
  file_after : file
}.

(** [ilium_init].  [region_err] is what [alloc_chrdev_region] returns and
    [cdev_ret] what [cdev_add] returns; the source drops the latter and
    tests [err] a second time.  The value returned is the module's load
    status; a failed load leaves no device (the cleanup labels release the
    region and the pages). *)
Definition ilium_init (alloc : allocator) (region_err cdev_ret : Z)
  : outcome (Z * option ilium_dev) :=
  let pow := 5 in
  let cap := Z.shiftl PAGE_SIZE pow in
  match get_free_pages alloc pow cap with
  | None => Returns (- ENOMEM, None)
  | Some pages =>
      zeroed <- memset pages 0 x00 (wrap_u64 cap) ;;
      let err := region_err in
      if err <? 0 then Returns (err, None)
      else
        let _ := cdev_ret in
        if err <? 0 then Returns (err, None)
        else Returns (0, Some (mk_dev zeroed 0 cap pow))
  end.

Definition ilium_open (filp : file) : Z * file := (0, filp).
Definition ilium_release (filp : file) : Z := 0.

(** The growth loop of [ilium_write] (lines 71-82).  Returns the device and
    the value of [count] on leaving the loop. *)
Fixpoint grow (fuel : nat) (alloc : allocator) (dev : ilium_dev)
  (count off : Z) : outcome (ilium_dev * Z) :=
  if wrap_u64 (off + count) >? wrap_u64 (capacity dev) then
    match fuel with
    | O => Diverges
    | S fuel' =>
        let cap2 := wrap_s64 (Z.shiftl (capacity dev) 1) in
        match get_free_pages alloc (wrap_u32 cap2) cap2 with
        | None => Returns (dev, wrap_u64 (capacity dev - off))
        | Some ptr =>
            p1 <- memcpy ptr (data dev) (wrap_u64 (size dev)) ;;
            p2 <- memset p1 (size dev) x00 (wrap_u64 (cap2 - size dev)) ;;
            grow fuel' alloc
              (mk_dev p2 (size dev) cap2 (pages_pow dev)) count off
        end
    end
  else Returns (dev, count).

(** Iterations granted to the loop.  A 64-bit capacity is zero after 64
    doublings and the loop cannot leave a zero capacity: [grow_fuel_exact]
    shows that more fuel never changes the outcome, so that [Diverges]
    stands for a loop that really never exits. *)
Definition grow_fuel : nat := 66.

Definition ilium_write (sig : bool) (alloc : allocator) (dev : ilium_dev)
  (buf : list byte) (count off : Z) : outcome io_result :=
  if negb (down_interruptible sig =? 0) then
    Returns (mk_io (- ERESTARTSYS) dev off [])
  else if off >? size dev then
    Returns (mk_io (- EFAULT) dev off [])
  else
    grown <- grow grow_fuel alloc dev count off ;;
    let dev1 := fst grown in
    let count1 := snd grown in
    stored <- copy_from_user (data dev1) off buf count1 ;;
    Returns (mk_io (wrap_s32 count1)
               (mk_dev stored (wrap_s64 (size dev1 + count1))
                  (capacity dev1) (pages_pow dev1))
               (wrap_s64 (off + count1))
               []).

Definition ilium_read (sig : bool) (dev : ilium_dev) (count off : Z)
  : outcome io_result :=
  if negb (down_interruptible sig =? 0) then
    Returns (mk_io (- ERESTARTSYS) dev off [])
  else if off >=? size dev then
    Returns (mk_io (- EFAULT) dev off [])
  else
    let count1 :=
      if wrap_u64 (off + count) >? wrap_u64 (size dev)
      then wrap_u64 (size dev - off) else count in
    bytes <- copy_to_user (data dev) off count1 ;;
    Returns (mk_io (wrap_s32 count1) dev (wrap_s64 (off + count1)) bytes).

Definition ilium_llseek (sig : bool) (devp : ilium_dev) (filp : file)
  (off whence : Z) : seek_result :=
  let retval := - EFAULT in
  if negb (down_interruptible sig =? 0) then mk_seek retval filp
  else if whence =? SEEK_SET then
    if off >=? size devp then mk_seek retval filp
    else mk_seek off (mk_file off)
  else if whence =? SEEK_CUR then
    if wrap_s64 (f_pos filp + off) >=? size devp then mk_seek retval filp
    else let p := wrap_s64 (f_pos filp + off) in mk_seek p (mk_file p)
  else if whence =? SEEK_END then
    if wrap_s64 (wrap_s64 (size devp - 1) + off) >=? size devp
    then mk_seek retval filp
    else let p := wrap_s64 (wrap_s64 (size devp - 1) + off) in
         mk_seek p (mk_file p)
  else mk_seek (f_pos filp) filp.

(** ** Sessions: the driver under the VFS layer

    The VFS layer (kernel code) opens a file at position 0, hands the
    file's position to the read and write methods as [*offp] and stores
    it back afterwards; the driver leaves [*offp] as it was on its error
    paths. *)

Record session : Type := mk_session {
  dev : ilium_dev;
  handle : file
}.

Inductive request : Type :=
| ReqOpen
| ReqClose
| ReqWrite (sig : bool) (alloc : allocator) (buf : list byte) (count : Z)
| ReqRead (sig : bool) (count : Z)
| ReqSeek (sig : bool) (whence off : Z).

Definition serve (s : session) (q : request) : outcome session :=
  match q with
  | ReqOpen => Returns (mk_session (dev s) (snd (ilium_open (mk_file 0))))
  | ReqClose => Returns s
  | ReqWrite sig alloc buf count =>
      r <- ilium_write sig alloc (dev s) buf count (f_pos (handle s)) ;;
      Returns (mk_session (dev_after r) (mk_file (offp_after r)))
  | ReqRead sig count =>
      r <- ilium_read sig (dev s) count (f_pos (handle s)) ;;
      Returns (mk_session (dev_after r) (mk_file (offp_after r)))
  | ReqSeek sig whence off =>
      Returns (mk_session (dev s)
                 (file_after (ilium_llseek sig (dev s) (handle s) off whence)))
  end.

Fixpoint run (qs : list request) (s : session) : outcome session :=
  match qs with
  | [] => Returns s
  | q :: qs' => s' <- serve s q ;; run qs' s'
  end.

(** The device as [ilium_init] leaves it (see [ilium_init_gives_initial]). *)
Definition initial_dev : ilium_dev :=
  mk_dev (zfill x00 (Z.shiftl PAGE_SIZE 5)) 0 (Z.shiftl PAGE_SIZE 5) 5.

Definition reachable (s : session) : Prop :=
  exists qs, run qs (mk_session initial_dev (mk_file 0)) = Returns s.

(** ** Vocabulary of the statements *)

(** The buffer is the region the device believes it has, and the counters
    are in the range of their C type with room for one request. *)
Definition sane (d : ilium_dev) : Prop :=
  rlen (data d) = capacity d /\
  0 < capacity d < 2 ^ 63 /\
  0 <= size d < 2 ^ 61.

(** The data-model invariant on top: nothing counted beyond the buffer. *)
Definition wf (d : ilium_dev) : Prop :=
  sane d /\ size d <= capacity d.

(** What the VFS layer guarantees about a read or write request before the
    driver sees it: a non-negative position and a clipped byte count. *)
Definition vfs_request (count off : Z) : Prop :=
  0 <= off /\ 0 <= count <= MAX_RW_COUNT.

(** An allocator that never refuses. *)
Definition always_grants (alloc : allocator) : Prop :=
  forall order, alloc order <> None.

(** The order the source passes to the allocator when the device is [d]. *)
Definition order_asked (d : ilium_dev) : Z :=
  wrap_u32 (wrap_s64 (Z.shiftl (capacity d) 1)).

(** The device after one granted doubling: the counted bytes kept, the
    rest of the doubled region zeroed. *)
Definition grow_once (d : ilium_dev) : ilium_dev :=
  mk_dev (ztake (size d) (data d) ++ zfill x00 (2 * capacity d - size d))
         (size d) (2 * capacity d) (pages_pow d).

(** [grow_once] repeated. *)
Fixpoint grow_times (k : nat) (d : ilium_dev) : ilium_dev :=
  match k with
  | O => d
  | S k' => grow_times k' (grow_once d)
  end.

(** How the loop was left: with room for the whole request, or at a
    refused allocation with the count clipped to the room there is. *)
Inductive loop_exit (alloc : allocator) (d' : ilium_dev) (count off : Z)
  : Z -> Prop :=
| exit_room :
    off + count <= capacity d' ->
    loop_exit alloc d' count off count
| exit_refused :
    capacity d' < off + count ->
    alloc (order_asked d') = None ->
    loop_exit alloc d' count off (wrap_u64 (capacity d' - off)).

(** The doublings before index [k] were all needed and granted. *)
Definition granted_upto (alloc : allocator) (d : ilium_dev) (count off : Z)
  (k : nat) : Prop :=
  forall i : nat, (i < k)%nat ->
    capacity (grow_times i d) < off + count /\
    alloc (order_asked (grow_times i d)) <> None.

(** The device and position a write leaves when it stores [n] bytes of
    [buf] at [off] in the device [g] the loop produced. *)
Definition write_result (g : ilium_dev) (buf : list byte) (off n : Z)
  : io_result :=
  mk_io n
    (mk_dev (ztake off (data g) ++ ztake n buf ++ zdrop (off + n) (data g))
            (size g + n) (capacity g) (pages_pow g))
    (off + n) [].

(** The position a seek aims at, as the three cases compute it. *)
Definition seek_target (d : ilium_dev) (f : file) (off whence : Z) : Z :=
  if whence =? SEEK_SET then off
  else if whence =? SEEK_CUR then f_pos f + off
  else size d - 1 + off.

Definition loff_t_range (z : Z) : Prop := - 2 ^ 63 <= z < 2 ^ 63.

(** The unit of growth: the capacity [ilium_init] starts from. *)
Definition GROWTH_UNIT : Z := Z.shiftl PAGE_SIZE 5.

Definition pow2_multiple (u c : Z) : Prop :=
  exists j : nat, c = u * 2 ^ Z.of_nat j.

(** [c] is the least power-of-two multiple of [u] that is at least [lo]. *)
Definition least_pow2_multiple (u lo c : Z) : Prop :=
  pow2_multiple u c /\ lo <= c /\
  forall c', pow2_multiple u c' -> lo <= c' -> c <= c'.

(** ** Concrete inputs *)

(** A device small enough to run by hand: 8 bytes of buffer, 4 counted. *)
Definition small_dev : ilium_dev :=
  mk_dev [x0a; x0b; x0c; x0d; x00; x00; x00; x00] 4 8 0.

Definition refuse_all : allocator := fun _ => None.
Definition grant_all : allocator := fun _ => Some (fun _ => xff).

(** Grants the first doubling of [small_dev] (order 16) and nothing else. *)
Definition grant_once : allocator :=
  fun order => if order =? 16 then Some (fun _ => xff) else None.

(** Open, fill the buffer exactly, seek back to the start, write one more
    byte over the first. *)
Definition overlapping_writes : list request :=
  [ ReqOpen;
    ReqWrite false refuse_all (zfill x01 131072) 131072;
    ReqSeek false SEEK_SET 0;
    ReqWrite false refuse_all [x02] 1 ].

(** Every byte at or beyond [size] is zero. *)
Definition tail_zero (d : ilium_dev) : Prop :=
  zdrop (size d) (data d) = zfill x00 (capacity d - size d).

(** Two allocators that refuse the same requests, whatever the pages
    they hand out contain. *)
Definition same_grants (a1 a2 : allocator) : Prop :=
  forall order, a1 order = None <-> a2 order = None.

(** The bytes a read of [count] at [off] is entitled to. *)
Definition readable (d : ilium_dev) (count off : Z) : Z :=
  Z.min count (size d - off).

(** An allocator of a 64-bit machine: an order of 64 or more stands for
    2^64 pages or more, beyond any address space, and is refused. *)
Definition realisable (alloc : allocator) : Prop :=
  forall order, 64 <= order -> alloc order = None.

(** [small_dev] with more counted than the buffer holds. *)
Definition overcounted_dev : ilium_dev :=
  mk_dev [x0a; x0b; x0c; x0d; x00; x00; x00; x00] 10 8 0.

(** Grants everything, handing out pages full of [x55]. *)
Definition grant_dirty : allocator := fun _ => Some (fun _ => x55).

(** ** Arithmetic of the wrapped types *)

Section Wrap.

Lemma wrap_u64_id z : 0 <= z < 2 ^ 64 -> wrap_u64 z = z.
Proof. intros H. unfold wrap_u64. now apply Z.mod_small. Qed.

Lemma wrap_s64_id z : - 2 ^ 63 <= z < 2 ^ 63 -> wrap_s64 z = z.
Proof. intros H. unfold wrap_s64. rewrite Z.mod_small; lia. Qed.

Lemma wrap_s32_id z : - 2 ^ 31 <= z < 2 ^ 31 -> wrap_s32 z = z.
Proof. intros H. unfold wrap_s32. rewrite Z.mod_small; lia. Qed.

Lemma wrap_u64_neg z : - 2 ^ 64 <= z < 0 -> wrap_u64 z = z + 2 ^ 64.
Proof.
  intros H. unfold wrap_u64.
  replace z with (z + 2 ^ 64 + (-1) * 2 ^ 64) at 1 by ring.
  rewrite Z.mod_add by lia. apply Z.mod_small. lia.
Qed.

Lemma wrap_s64_congruent z : exists q, wrap_s64 z = z + q * 2 ^ 64.
Proof.
  exists (- ((z + 2 ^ 63) / 2 ^ 64)). unfold wrap_s64.
  rewrite Z.mod_eq by lia. ring.
Qed.

Lemma wrap_s64_range z : - 2 ^ 63 <= wrap_s64 z < 2 ^ 63.
Proof.
  unfold wrap_s64.
  pose proof (Z.mod_pos_bound (z + 2 ^ 63) (2 ^ 64)). lia.
Qed.

Lemma shiftl_1 z : Z.shiftl z 1 = 2 * z.
Proof. rewrite Z.shiftl_mul_pow2 by lia. change (2 ^ 1) with 2. ring. Qed.

Lemma max_rw_count_small : MAX_RW_COUNT < 2 ^ 31.
Proof. unfold MAX_RW_COUNT, PAGE_SIZE. lia. Qed.

Lemma pow2_lt_exponent (a b : nat) :
  2 ^ Z.of_nat a < 2 ^ Z.of_nat b -> (a < b)%nat.
Proof.
  intros H. destruct (Nat.lt_ge_cases a b) as [Hlt|Hge]; [assumption|].
  assert (2 ^ Z.of_nat b <= 2 ^ Z.of_nat a)
    by (apply Z.pow_le_mono_r; lia).
  lia.
Qed.

End Wrap.

(** A boolean guard made of [<=?] tests that holds by linear arithmetic. *)
Ltac guard_holds :=
  symmetry; rewrite ?andb_true_iff, ?Z.leb_le; lia.

(** ** Lengths of the pieces a copy is made of *)

Section Regions.

Lemma rlen_nonneg r : 0 <= rlen r.
Proof. unfold rlen. lia. Qed.

Lemma rlen_app r1 r2 : rlen (r1 ++ r2) = rlen r1 + rlen r2.
Proof. unfold rlen. rewrite length_app. lia. Qed.

Lemma rlen_ztake n r : 0 <= n <= rlen r -> rlen (ztake n r) = n.
Proof. unfold rlen, ztake. intros H. rewrite length_firstn. lia. Qed.

Lemma rlen_zdrop n r : 0 <= n <= rlen r -> rlen (zdrop n r) = rlen r - n.
Proof. unfold rlen, zdrop. intros H. rewrite length_skipn. lia. Qed.

Lemma rlen_zfill c n : 0 <= n -> rlen (zfill c n) = n.
Proof. unfold rlen, zfill. intros H. rewrite repeat_length. lia. Qed.

Lemma rlen_fresh (junk : nat -> byte) n :
  0 <= n -> rlen (map junk (seq 0 (Z.to_nat n))) = n.
Proof. unfold rlen. intros H. rewrite length_map, length_seq. lia. Qed.

Lemma zdrop_all n r : rlen r <= n -> zdrop n r = [].
Proof. unfold rlen, zdrop. intros H. apply skipn_all2. lia. Qed.

Lemma ztake_all n r : rlen r <= n -> ztake n r = r.
Proof. unfold rlen, ztake. intros H. apply firstn_all2. lia. Qed.

Lemma ztake_app_l n r1 r2 :
  0 <= n <= rlen r1 -> ztake n (r1 ++ r2) = ztake n r1.
Proof.
  unfold rlen, ztake. intros H. rewrite firstn_app.
  replace (Z.to_nat n - length r1)%nat with 0%nat by lia.
  simpl. apply app_nil_r.
Qed.

Lemma ztake_ztake n r : ztake n (ztake n r) = ztake n r.
Proof. unfold ztake. rewrite firstn_firstn. now rewrite Nat.min_id. Qed.

Lemma zdrop_app_exact n r1 r2 : rlen r1 = n -> zdrop n (r1 ++ r2) = r2.
Proof.
  unfold rlen, zdrop. intros H. rewrite skipn_app.
  rewrite skipn_all2 by lia.
  replace (Z.to_nat n - length r1)%nat with 0%nat by lia. reflexivity.
Qed.

(** Reading [n] bytes at [off] from a buffer that holds [bytes] there. *)
Lemma copy_to_user_stored g off n bytes rest :
  0 <= off <= rlen g -> rlen bytes = n ->
  copy_to_user (ztake off g ++ bytes ++ rest) off n = Returns bytes.
Proof.
  intros Ho Hn. unfold copy_to_user.
  pose proof (rlen_nonneg bytes). pose proof (rlen_nonneg rest).
  replace ((0 <=? off) && (0 <=? n)
           && (off + n <=? rlen (ztake off g ++ bytes ++ rest))) with true
    by (symmetry; rewrite !andb_true_iff, !Z.leb_le;
        rewrite !rlen_app, rlen_ztake by lia; lia).
  f_equal. rewrite zdrop_app_exact by (apply rlen_ztake; lia).
  rewrite ztake_app_l by lia. apply ztake_all. lia.
Qed.

End Regions.

(** ** The fresh device *)

Section Init.

Lemma growth_unit_value : GROWTH_UNIT = 131072.
Proof. reflexivity. Qed.

Lemma initial_dev_wf : wf initial_dev.
Proof.
  unfold wf, sane, initial_dev. cbn [data size capacity].
  change (Z.shiftl PAGE_SIZE 5) with 131072.
  rewrite rlen_zfill by lia. lia.
Qed.

(** Whatever the pages held, an [ilium_init] whose pages and region are
    granted returns 0 and leaves [initial_dev]. *)
Lemma ilium_init_gives_initial alloc junk region_err cdev_ret :
  alloc 5 = Some junk -> 0 <= region_err ->
  ilium_init alloc region_err cdev_ret = Returns (0, Some initial_dev).
Proof.
  intros Ha Herr. unfold ilium_init, get_free_pages. cbv zeta. rewrite Ha.
  replace (region_err <? 0) with false by (symmetry; apply Z.ltb_ge; lia).
  change (Z.shiftl PAGE_SIZE 5) with 131072.
  set (pages := map junk (seq 0 (Z.to_nat 131072))).
  assert (Hp : rlen pages = 131072) by (apply rlen_fresh; lia).
  rewrite wrap_u64_id by lia. unfold memset.
  replace ((0 <=? 0) && (0 <=? 131072) && (0 + 131072 <=? rlen pages))
    with true by guard_holds.
  cbn [bind]. rewrite (zdrop_all (0 + 131072)) by lia.
  rewrite app_nil_r. reflexivity.
Qed.

End Init.

(** ** One turn of the growth loop *)

Section GrowthLoop.

Variable alloc : allocator.

Lemma grow_unfold fuel d count off :
  grow (S fuel) alloc d count off
  = if wrap_u64 (off + count) >? wrap_u64 (capacity d) then
      match get_free_pages alloc (order_asked d)
              (wrap_s64 (Z.shiftl (capacity d) 1)) with
      | None => Returns (d, wrap_u64 (capacity d - off))
      | Some ptr =>
          p1 <- memcpy ptr (data d) (wrap_u64 (size d)) ;;
          p2 <- memset p1 (size d) x00
                  (wrap_u64 (wrap_s64 (Z.shiftl (capacity d) 1) - size d)) ;;
          grow fuel alloc
            (mk_dev p2 (size d) (wrap_s64 (Z.shiftl (capacity d) 1))
               (pages_pow d)) count off
      end
    else Returns (d, count).
Proof. reflexivity. Qed.

Lemma grow_done fuel d count off :
  (wrap_u64 (off + count) >? wrap_u64 (capacity d)) = false ->
  grow fuel alloc d count off = Returns (d, count).
Proof. intros H. destruct fuel; cbn [grow]; now rewrite H. Qed.

Lemma grow_refused fuel d count off :
  (wrap_u64 (off + count) >? wrap_u64 (capacity d)) = true ->
  alloc (order_asked d) = None ->
  grow (S fuel) alloc d count off = Returns (d, wrap_u64 (capacity d - off)).
Proof.
  intros H Ha. rewrite grow_unfold, H.
  unfold get_free_pages. now rewrite Ha.
Qed.

Lemma doubled_capacity d :
  0 < capacity d < 2 ^ 62 ->
  wrap_s64 (Z.shiftl (capacity d) 1) = 2 * capacity d.
Proof. intros H. rewrite shiftl_1. apply wrap_s64_id. lia. Qed.

Lemma grow_granted fuel d count off junk :
  sane d -> size d <= capacity d -> capacity d < 2 ^ 62 ->
  (wrap_u64 (off + count) >? wrap_u64 (capacity d)) = true ->
  alloc (order_asked d) = Some junk ->
  grow (S fuel) alloc d count off = grow fuel alloc (grow_once d) count off.
Proof.
  intros (Hlen & Hcap & Hsz) Hle Hb H Ha. rewrite grow_unfold, H.
  unfold get_free_pages. rewrite Ha.
  rewrite doubled_capacity by lia.
  set (ptr := map junk (seq 0 (Z.to_nat (2 * capacity d)))).
  assert (Hptr : rlen ptr = 2 * capacity d) by (apply rlen_fresh; lia).
  rewrite (wrap_u64_id (size d)) by lia.
  rewrite (wrap_u64_id (2 * capacity d - size d)) by lia.
  unfold memcpy.
  replace ((0 <=? size d) && (size d <=? rlen (data d)) && (size d <=? rlen ptr))
    with true by guard_holds.
  cbn [bind]. unfold memset.
  assert (Hp1 : rlen (ztake (size d) (data d) ++ zdrop (size d) ptr)
                = 2 * capacity d).
  { rewrite rlen_app, rlen_ztake, rlen_zdrop by lia. lia. }
  replace ((0 <=? size d) && (0 <=? 2 * capacity d - size d)
           && (size d + (2 * capacity d - size d)
               <=? rlen (ztake (size d) (data d) ++ zdrop (size d) ptr)))
    with true by guard_holds.
  cbn [bind].
  rewrite ztake_app_l by (rewrite rlen_ztake; lia).
  rewrite ztake_ztake.
  rewrite (zdrop_all (size d + (2 * capacity d - size d))) by lia.
  rewrite app_nil_r. reflexivity.
Qed.

(** With more counted than the buffer holds, the copy into the new pages
    reads past the end of the old ones. *)
Lemma grow_overread fuel d count off junk :
  sane d -> capacity d < size d ->
  (wrap_u64 (off + count) >? wrap_u64 (capacity d)) = true ->
  alloc (order_asked d) = Some junk ->
  grow (S fuel) alloc d count off = Faults.
Proof.
  intros (Hlen & Hcap & Hsz) Hgt H Ha. rewrite grow_unfold, H.
  unfold get_free_pages. rewrite Ha.
  rewrite (wrap_u64_id (size d)) by lia.
  unfold memcpy.
  replace (size d <=? rlen (data d)) with false
    by (symmetry; apply Z.leb_gt; lia).
  now rewrite andb_false_r.
Qed.

Lemma grow_once_sane d :
  sane d -> size d <= capacity d -> capacity d < 2 ^ 62 -> sane (grow_once d).
Proof.
  intros (Hlen & Hcap & Hsz) Hle Hb. unfold sane, grow_once.
  cbn [data size capacity pages_pow].
  rewrite rlen_app, rlen_ztake, rlen_zfill by lia. lia.
Qed.

Lemma over_capacity_iff d count off :
  sane d -> 0 <= off -> 0 <= count -> off + count <= 2 ^ 62 ->
  (wrap_u64 (off + count) >? wrap_u64 (capacity d)) = true
  <-> capacity d < off + count.
Proof.
  intros (Hlen & Hcap & Hsz) Ho Hc Hb.
  rewrite !wrap_u64_id by lia. rewrite Z.gtb_ltb. apply Z.ltb_lt.
Qed.

End GrowthLoop.

(** ** The fuel of the loop is enough *)

Section FuelIsEnough.

Variable alloc : allocator.

Lemma doubling_divides (j : nat) c :
  (j < 64)%nat -> (2 ^ Z.of_nat j | c) ->
  (2 ^ Z.of_nat (S j) | wrap_s64 (Z.shiftl c 1)).
Proof.
  intros Hj [a Ha]. rewrite shiftl_1.
  destruct (wrap_s64_congruent (2 * c)) as [q ->].
  exists (a + q * 2 ^ (64 - Z.of_nat (S j))).
  rewrite Z.mul_add_distr_r, <- Z.mul_assoc, <- Z.pow_add_r by lia.
  replace (64 - Z.of_nat (S j) + Z.of_nat (S j)) with 64 by lia.
  rewrite Nat2Z.inj_succ, Z.pow_succ_r, Ha by lia. ring.
Qed.

Lemma zero_if_divisible c :
  (2 ^ 64 | c) -> - 2 ^ 63 <= c < 2 ^ 63 -> c = 0.
Proof. intros [a ->] H. lia. Qed.

(** The state the loop cannot leave: nothing allocated, nothing counted. *)
Lemma grow_stuck pp count off junk m :
  (wrap_u64 (off + count) >? wrap_u64 0) = true ->
  alloc 0 = Some junk ->
  grow m alloc (mk_dev [] 0 0 pp) count off = Diverges.
Proof.
  intros Hc Ha. induction m as [|m IH].
  - cbn [grow capacity]. now rewrite Hc.
  - rewrite grow_unfold. cbn [capacity data size pages_pow].
    rewrite Hc. unfold get_free_pages, order_asked. cbn [capacity].
    change (wrap_u32 (wrap_s64 (Z.shiftl 0 1))) with 0. rewrite Ha.
    exact IH.
Qed.

Lemma grow_zero_capacity d count off m :
  capacity d = 0 ->
  grow (1 + m) alloc d count off = grow 1 alloc d count off.
Proof.
  intros Hz. change (1 + m)%nat with (S m).
  rewrite !grow_unfold. unfold order_asked. rewrite Hz.
  destruct (wrap_u64 (off + count) >? wrap_u64 0) eqn:Hc; [|reflexivity].
  unfold get_free_pages.
  change (wrap_u32 (wrap_s64 (Z.shiftl 0 1))) with 0.
  change (wrap_s64 (Z.shiftl 0 1)) with 0.
  destruct (alloc 0) as [junk|] eqn:Ha; [|reflexivity].
  change (map junk (seq 0 (Z.to_nat 0))) with (@nil byte).
  unfold memcpy. change (rlen []) with 0.
  destruct ((0 <=? wrap_u64 (size d)) && (wrap_u64 (size d) <=? rlen (data d))
            && (wrap_u64 (size d) <=? 0)) eqn:G1; [|reflexivity].
  rewrite !andb_true_iff, !Z.leb_le in G1. destruct G1 as ((H0 & _) & H1).
  assert (Hn : wrap_u64 (size d) = 0) by lia. rewrite Hn.
  cbn [bind]. change (ztake 0 (data d) ++ zdrop 0 []) with (@nil byte).
  unfold memset. change (rlen []) with 0.
  destruct ((0 <=? size d) && (0 <=? wrap_u64 (0 - size d))
            && (size d + wrap_u64 (0 - size d) <=? 0)) eqn:G2; [|reflexivity].
  rewrite !andb_true_iff, !Z.leb_le in G2. destruct G2 as ((H2 & H3) & H4).
  assert (Hs : size d = 0) by lia. rewrite Hs.
  cbn [bind].
  change (ztake 0 [] ++ zfill x00 (wrap_u64 (0 - 0))
            ++ zdrop (0 + wrap_u64 (0 - 0)) [])
    with (@nil byte).
  rewrite (grow_stuck _ count off junk m Hc Ha).
  now rewrite (grow_stuck _ count off junk 0 Hc Ha).
Qed.

Lemma grow_fuel_steps (j : nat) :
  (j <= 64)%nat ->
  forall d count off m,
    (2 ^ Z.of_nat (64 - j) | capacity d) ->
    - 2 ^ 63 <= capacity d < 2 ^ 63 ->
    grow (S j + m) alloc d count off = grow (S j) alloc d count off.
Proof.
  induction j as [|j IH]; intros Hj d count off m Hdiv Hrange.
  - apply grow_zero_capacity. now apply zero_if_divisible.
  - change (S (S j) + m)%nat with (S (S j + m)). rewrite !grow_unfold.
    destruct (wrap_u64 (off + count) >? wrap_u64 (capacity d)); [|reflexivity].
    destruct (get_free_pages _ _ _) as [ptr|]; [|reflexivity].
    destruct (memcpy _ _ _) as [p1| |]; cbn [bind]; try reflexivity.
    destruct (memset _ _ _ _) as [p2| |]; cbn [bind]; try reflexivity.
    apply IH; [lia | | apply wrap_s64_range].
    cbn [capacity].
    replace (64 - j)%nat with (S (64 - S j)) by lia.
    apply doubling_divides; [lia | assumption].
Qed.

(** More fuel than [grow_fuel] changes nothing: a loop reported as
    diverging really never exits. *)
Lemma grow_fuel_exact d count off m :
  - 2 ^ 63 <= capacity d < 2 ^ 63 ->
  grow (grow_fuel + m) alloc d count off = grow grow_fuel alloc d count off.
Proof.
  intros Hr.
  assert (Hd : (2 ^ Z.of_nat (64 - 64) | capacity d))
    by (exists (capacity d); change (2 ^ Z.of_nat (64 - 64)) with 1; ring).
  change (grow_fuel + m)%nat with (65 + (1 + m))%nat.
  change grow_fuel with (65 + 1)%nat.
  rewrite (grow_fuel_steps 64 (le_n _) d count off (1 + m) Hd Hr).
  now rewrite (grow_fuel_steps 64 (le_n _) d count off 1 Hd Hr).
Qed.

End FuelIsEnough.

(** ** Repeated doubling *)

Section GrowTimes.

Lemma grow_times_S k d : grow_times (S k) d = grow_once (grow_times k d).
Proof.
  revert d. induction k as [|k IH]; intros d; [reflexivity|].
  change (grow_times (S (S k)) d) with (grow_times (S k) (grow_once d)).
  now rewrite IH.
Qed.

Lemma grow_times_size k d : size (grow_times k d) = size d.
Proof.
  revert d. induction k as [|k IH]; intros d; cbn; [|rewrite IH]; reflexivity.
Qed.

Lemma grow_times_pages_pow k d : pages_pow (grow_times k d) = pages_pow d.
Proof.
  revert d. induction k as [|k IH]; intros d; cbn; [|rewrite IH]; reflexivity.
Qed.

Lemma grow_times_capacity k d :
  capacity (grow_times k d) = capacity d * 2 ^ Z.of_nat k.
Proof.
  revert d. induction k as [|k IH]; intros d.
  - cbn [grow_times]. change (2 ^ Z.of_nat 0) with 1. ring.
  - cbn [grow_times]. rewrite IH. unfold grow_once; cbn [capacity].
    rewrite Nat2Z.inj_succ, Z.pow_succ_r by lia. ring.
Qed.

Lemma grow_times_capacity_mono i k d :
  0 < capacity d -> (i <= k)%nat ->
  capacity (grow_times i d) <= capacity (grow_times k d).
Proof.
  intros Hc Hik. rewrite !grow_times_capacity.
  apply Z.mul_le_mono_nonneg_l; [lia|].
  apply Z.pow_le_mono_r; lia.
Qed.

(** After any number of doublings the buffer is the counted bytes followed
    by zeros: nothing of the fresh pages' content is left. *)
Lemma grow_times_data k d :
  rlen (data d) = capacity d -> 0 <= size d <= capacity d ->
  data (grow_times (S k) d)
  = ztake (size d) (data d)
      ++ zfill x00 (capacity d * 2 ^ Z.of_nat (S k) - size d).
Proof.
  intros Hlen Hsz. induction k as [|k IH].
  - cbn [grow_times grow_once data]. f_equal. f_equal.
    change (2 ^ Z.of_nat 1) with 2. ring.
  - rewrite grow_times_S. unfold grow_once at 1. cbn [data].
    rewrite grow_times_size, grow_times_capacity, IH.
    rewrite ztake_app_l by (rewrite rlen_ztake; lia).
    rewrite ztake_ztake. f_equal. f_equal.
    rewrite (Nat2Z.inj_succ (S k)), Z.pow_succ_r by lia. ring.
Qed.

Lemma grow_times_sane k d :
  sane d -> ((0 < k)%nat -> size d <= capacity d) ->
  capacity d * 2 ^ Z.of_nat k < 2 ^ 63 ->
  sane (grow_times k d).
Proof.
  intros (Hlen & Hcap & Hsz) Hle Hb. destruct k as [|k].
  - cbn [grow_times]. repeat split; lia.
  - assert (size d <= capacity d) by (apply Hle; lia).
    assert (1 <= 2 ^ Z.of_nat (S k)) by (apply (Z.pow_le_mono_r 2 0); lia).
    unfold sane.
    rewrite grow_times_data, grow_times_capacity, grow_times_size by lia.
    rewrite rlen_app, rlen_ztake, rlen_zfill by nia.
    repeat split; nia.
Qed.

End GrowTimes.

(** ** The growth loop as a whole *)

Section GrowSpec.

Variable alloc : allocator.

(** Whatever the loop returns is the device doubled some number of times,
    every doubling having been needed and granted. *)
Lemma grow_returns_inv fuel d count off d' count' :
  sane d -> 0 <= off -> 0 <= count -> off + count <= 2 ^ 62 ->
  grow fuel alloc d count off = Returns (d', count') ->
  exists k : nat,
    d' = grow_times k d /\
    granted_upto alloc d count off k /\
    ((0 < k)%nat -> size d <= capacity d) /\
    loop_exit alloc d' count off count'.
Proof.
  revert d. induction fuel as [|fuel IH]; intros d Hs Ho Hc Hb Hg.
  - destruct (wrap_u64 (off + count) >? wrap_u64 (capacity d)) eqn:E.
    + cbn [grow] in Hg. rewrite E in Hg. discriminate.
    + rewrite grow_done in Hg by assumption. injection Hg as <- <-.
      exists 0%nat. split; [reflexivity|].
      split; [intros i Hi; lia|]. split; [lia|].
      apply exit_room.
      destruct (Z_lt_le_dec (capacity d) (off + count)) as [Hlt|Hle];
        [|assumption].
      apply (over_capacity_iff d count off Hs Ho Hc Hb) in Hlt. congruence.
  - destruct (wrap_u64 (off + count) >? wrap_u64 (capacity d)) eqn:E.
    + pose proof (proj1 (over_capacity_iff d count off Hs Ho Hc Hb) E) as Hlt.
      destruct (alloc (order_asked d)) as [junk|] eqn:Ha.
      * destruct (Z_le_gt_dec (size d) (capacity d)) as [Hle|Hgt].
        -- rewrite (grow_granted alloc fuel d count off junk) in Hg
             by (try assumption; lia).
           apply IH in Hg; try assumption;
             [|apply grow_once_sane; try assumption; lia].
           destruct Hg as (k & -> & Hpre & _ & Hex).
           exists (S k). split; [reflexivity|]. split; [|split].
           ++ intros [|i] Hi.
              ** cbn [grow_times]. split; [assumption|congruence].
              ** cbn [grow_times]. apply Hpre. lia.
           ++ intros _. assumption.
           ++ assumption.
        -- rewrite (grow_overread alloc fuel d count off junk) in Hg
             by (try assumption; lia).
           discriminate.
      * rewrite grow_refused in Hg by assumption. injection Hg as <- <-.
        exists 0%nat. split; [reflexivity|].
        split; [intros i Hi; lia|]. split; [lia|].
        apply exit_refused; assumption.
    + rewrite grow_done in Hg by assumption. injection Hg as <- <-.
      exists 0%nat. split; [reflexivity|].
      split; [intros i Hi; lia|]. split; [lia|].
      apply exit_room.
      destruct (Z_lt_le_dec (capacity d) (off + count)) as [Hlt|Hle];
        [|assumption].
      apply (over_capacity_iff d count off Hs Ho Hc Hb) in Hlt. congruence.
Qed.

(** From a device whose buffer is in order the loop returns, provided the
    fuel covers the doublings the request can ask for. *)
Lemma grow_total_fuel fuel d count off :
  wf d -> 0 <= off -> 0 <= count -> off + count <= 2 ^ 62 ->
  off + count <= capacity d * 2 ^ Z.of_nat fuel ->
  exists d' count', grow fuel alloc d count off = Returns (d', count').
Proof.
  revert d. induction fuel as [|fuel IH]; intros d [Hs Hle] Ho Hc Hb Hf.
  - change (2 ^ Z.of_nat 0) with 1 in Hf.
    exists d, count. apply grow_done.
    destruct (wrap_u64 (off + count) >? wrap_u64 (capacity d)) eqn:E;
      [|reflexivity].
    apply (over_capacity_iff d count off Hs Ho Hc Hb) in E. lia.
  - destruct (wrap_u64 (off + count) >? wrap_u64 (capacity d)) eqn:E.
    + pose proof (proj1 (over_capacity_iff d count off Hs Ho Hc Hb) E) as Hlt.
      destruct (alloc (order_asked d)) as [junk|] eqn:Ha.
      * rewrite (grow_granted alloc fuel d count off junk)
          by (try assumption; lia).
        apply IH; try assumption.
        -- split; [apply grow_once_sane; try assumption; lia|].
           unfold grow_once; cbn [size capacity].
           destruct Hs as (_ & ? & _). lia.
        -- unfold grow_once; cbn [capacity].
           rewrite Nat2Z.inj_succ, Z.pow_succ_r in Hf by lia. lia.
      * exists d, (wrap_u64 (capacity d - off)).
        now apply grow_refused.
    + exists d, count. now apply grow_done.
Qed.

Lemma grow_total d count off :
  wf d -> 0 <= off -> 0 <= count -> off + count <= 2 ^ 62 ->
  exists d' count', grow grow_fuel alloc d count off = Returns (d', count').
Proof.
  intros Hw Ho Hc Hb. apply grow_total_fuel; try assumption.
  destruct Hw as [(_ & Hcap & _) _].
  assert (2 ^ 62 <= capacity d * 2 ^ Z.of_nat grow_fuel); [|lia].
  change (2 ^ Z.of_nat grow_fuel) with (2 ^ 66). nia.
Qed.

Lemma loop_exit_unique d count off k n k' n' :
  granted_upto alloc d count off k ->
  loop_exit alloc (grow_times k d) count off n ->
  granted_upto alloc d count off k' ->
  loop_exit alloc (grow_times k' d) count off n' ->
  k = k' /\ n = n'.
Proof.
  intros Hp He Hp' He'.
  destruct (Nat.lt_trichotomy k k') as [Hlt | [<- | Hgt]].
  - exfalso. destruct (Hp' k Hlt) as [Hneed Hgrant].
    destruct He as [Hroom | _ Hnone]; [lia | congruence].
  - split; [reflexivity|].
    destruct He as [Hroom | Hneed Hnone], He' as [Hroom' | Hneed' Hnone'];
      (reflexivity || lia).
  - exfalso. destruct (Hp k' Hgt) as [Hneed Hgrant].
    destruct He' as [Hroom | _ Hnone]; [lia | congruence].
Qed.

End GrowSpec.

(** ** The write entry point, after the lock and the bounds check *)

Section WriteSpec.

Variable alloc : allocator.

Lemma write_interrupted d buf count off :
  ilium_write true alloc d buf count off
  = Returns (mk_io (- ERESTARTSYS) d off []).
Proof. reflexivity. Qed.

Lemma write_out_of_range d buf count off :
  size d < off ->
  ilium_write false alloc d buf count off = Returns (mk_io (- EFAULT) d off []).
Proof.
  intros H. unfold ilium_write. cbn [down_interruptible Z.eqb negb].
  replace (off >? size d) with true
    by (symmetry; rewrite Z.gtb_ltb; apply Z.ltb_lt; lia).
  reflexivity.
Qed.

(** A write that returns has stored [n] bytes, at most the count asked
    for, in the device doubled [k] times, [k] and [n] as the loop left. *)
Lemma write_returns_inv d buf count off r :
  sane d -> vfs_request count off -> off <= size d ->
  ilium_write false alloc d buf count off = Returns r ->
  exists (k : nat) (n : Z),
    granted_upto alloc d count off k /\
    ((0 < k)%nat -> size d <= capacity d) /\
    sane (grow_times k d) /\
    loop_exit alloc (grow_times k d) count off n /\
    0 <= n <= count /\ off + n <= capacity (grow_times k d) /\
    n <= rlen buf /\
    r = write_result (grow_times k d) buf off n.
Proof.
  intros Hs (Ho & Hc0 & Hc) Hle Hw.
  pose proof Hs as (Hlen & Hcap & Hsz).
  pose proof max_rw_count_small as Hm.
  assert (Hb : off + count <= 2 ^ 62) by lia.
  unfold ilium_write in Hw. cbn [down_interruptible Z.eqb negb] in Hw.
  replace (off >? size d) with false in Hw
    by (symmetry; rewrite Z.gtb_ltb; apply Z.ltb_ge; lia).
  destruct (grow grow_fuel alloc d count off) as [[g n]| |] eqn:Hg;
    cbn [bind fst snd] in Hw; try discriminate.
  apply grow_returns_inv in Hg; try assumption.
  destruct Hg as (k & -> & Hpre & Hk & Hex).
  assert (Hsg : sane (grow_times k d)).
  { apply grow_times_sane; try assumption.
    destruct k as [|k]; [change (2 ^ Z.of_nat 0) with 1; lia|].
    destruct (Hpre k) as [Hlt _]; [lia|].
    rewrite grow_times_capacity in Hlt.
    rewrite Nat2Z.inj_succ, Z.pow_succ_r by lia. lia. }
  pose proof Hsg as (Hglen & Hgcap & Hgsz).
  unfold copy_from_user in Hw.
  destruct ((0 <=? off) && (0 <=? n)
            && (off + n <=? rlen (data (grow_times k d)))
            && (n <=? rlen buf)) eqn:G;
    cbn [bind] in Hw; try discriminate.
  rewrite !andb_true_iff, !Z.leb_le in G.
  destruct G as (((_ & Hn0) & Hfit) & Hbuf).
  assert (Hn : n <= count).
  { destruct Hex as [Hroom|Hlt Ha]; [lia|].
    destruct (Z_le_gt_dec off (capacity (grow_times k d))) as [Hin|Hout].
    - rewrite wrap_u64_id by lia. lia.
    - rewrite wrap_u64_neg in Hfit by lia. lia. }
  exists k, n.
  split; [exact Hpre|]. split; [exact Hk|]. split; [exact Hsg|].
  split; [exact Hex|]. split; [lia|]. split; [lia|]. split; [lia|].
  injection Hw as <-. unfold write_result.
  rewrite wrap_s32_id, !wrap_s64_id by lia. reflexivity.
Qed.

(** With the data-model invariant in place a write within the bounds
    always returns. *)
Lemma write_total d buf count off :
  wf d -> vfs_request count off -> off <= size d -> count <= rlen buf ->
  exists r, ilium_write false alloc d buf count off = Returns r.
Proof.
  intros Hw (Ho & Hc0 & Hc) Hle Hbuf.
  pose proof Hw as [Hs Hsc]. pose proof Hs as (Hlen & Hcap & Hsz).
  pose proof max_rw_count_small as Hm.
  assert (Hb : off + count <= 2 ^ 62) by lia.
  destruct (grow_total alloc d count off Hw Ho Hc0 Hb)
    as (g & n & Hg).
  unfold ilium_write. cbn [down_interruptible Z.eqb negb].
  replace (off >? size d) with false
    by (symmetry; rewrite Z.gtb_ltb; apply Z.ltb_ge; lia).
  rewrite Hg. cbn [bind fst snd].
  apply grow_returns_inv in Hg; try assumption.
  destruct Hg as (k & -> & Hpre & Hk & Hex).
  assert (Hge : capacity d <= capacity (grow_times k d))
    by (apply (grow_times_capacity_mono 0 k d); lia).
  assert (Hsg : sane (grow_times k d)).
  { apply grow_times_sane; try assumption.
    destruct k as [|k]; [change (2 ^ Z.of_nat 0) with 1; lia|].
    destruct (Hpre k) as [Hlt _]; [lia|].
    rewrite grow_times_capacity in Hlt.
    rewrite Nat2Z.inj_succ, Z.pow_succ_r by lia. lia. }
  destruct Hsg as (Hglen & Hgcap & Hgsz).
  unfold copy_from_user.
  destruct Hex as [Hroom|Hlt Ha].
  - replace ((0 <=? off) && (0 <=? count)
             && (off + count <=? rlen (data (grow_times k d)))
             && (count <=? rlen buf)) with true by guard_holds.
    cbn [bind]. eexists. reflexivity.
  - rewrite wrap_u64_id by lia.
    replace ((0 <=? off) && (0 <=? capacity (grow_times k d) - off)
             && (off + (capacity (grow_times k d) - off)
                 <=? rlen (data (grow_times k d)))
             && (capacity (grow_times k d) - off <=? rlen buf)) with true
      by guard_holds.
    cbn [bind]. eexists. reflexivity.
Qed.

(** The result of a write is fixed by the index at which the loop exits. *)
Lemma write_exits_at d buf count off k n :
  wf d -> vfs_request count off -> off <= size d -> count <= rlen buf ->
  granted_upto alloc d count off k ->
  loop_exit alloc (grow_times k d) count off n ->
  ilium_write false alloc d buf count off
  = Returns (write_result (grow_times k d) buf off n).
Proof.
  intros Hw Hq Hle Hbuf Hp He.
  destruct (write_total d buf count off Hw Hq Hle Hbuf) as [r Hr].
  rewrite Hr. f_equal.
  destruct (write_returns_inv d buf count off r (proj1 Hw) Hq Hle Hr)
    as (k' & n' & Hp' & _ & _ & He' & _ & _ & _ & ->).
  destruct (loop_exit_unique alloc d count off k n k' n' Hp He Hp' He')
    as [<- <-].
  reflexivity.
Qed.

(** A request that fits the buffer as it is runs without the allocator. *)
Lemma write_in_place d buf count off :
  sane d -> vfs_request count off -> off <= size d ->
  off + count <= capacity d -> count <= rlen buf ->
  ilium_write false alloc d buf count off
  = Returns (write_result d buf off count).
Proof.
  intros (Hlen & Hcap & Hsz) (Ho & Hc0 & Hc) Hle Hfit Hbuf.
  pose proof max_rw_count_small as Hm.
  unfold ilium_write. cbn [down_interruptible Z.eqb negb].
  replace (off >? size d) with false
    by (symmetry; rewrite Z.gtb_ltb; apply Z.ltb_ge; lia).
  rewrite grow_done
    by (rewrite !wrap_u64_id by lia; rewrite Z.gtb_ltb; apply Z.ltb_ge; lia).
  cbn [bind fst snd]. unfold copy_from_user.
  replace ((0 <=? off) && (0 <=? count) && (off + count <=? rlen (data d))
           && (count <=? rlen buf)) with true by guard_holds.
  cbn [bind]. unfold write_result.
  rewrite wrap_s32_id, !wrap_s64_id by lia. reflexivity.
Qed.

Lemma write_result_sane g buf off n :
  sane g -> 0 <= off -> 0 <= n -> off + n <= capacity g -> n <= rlen buf ->
  size g + n < 2 ^ 61 ->
  sane (dev_after (write_result g buf off n)).
Proof.
  intros (Hlen & Hcap & Hsz) Ho Hn Hfit Hbuf Hb.
  unfold sane, write_result. cbn [dev_after data size capacity].
  rewrite !rlen_app, !rlen_ztake, rlen_zdrop by lia.
  repeat split; lia.
Qed.

(** With every allocation granted the loop can only leave with room. *)
Lemma granted_write_shape d buf count off :
  wf d -> always_grants alloc -> vfs_request count off ->
  off <= size d -> count <= rlen buf ->
  exists k : nat,
    ilium_write false alloc d buf count off
    = Returns (write_result (grow_times k d) buf off count) /\
    off + count <= capacity (grow_times k d) /\
    (forall i : nat, (i < k)%nat -> capacity (grow_times i d) < off + count).
Proof.
  intros Hw Hall Hq Hle Hbuf.
  destruct (write_total d buf count off Hw Hq Hle Hbuf) as [r Hr].
  destruct (write_returns_inv d buf count off r (proj1 Hw) Hq Hle Hr)
    as (k & n & Hp & _ & _ & He & _ & _ & _ & ->).
  exists k. destruct He as [Hroom | _ Hnone].
  - split; [assumption|]. split; [assumption|].
    intros i Hi. now apply Hp.
  - exfalso. now apply (Hall (order_asked (grow_times k d))).
Qed.

(** A write at the end of the counted bytes keeps [size] within the
    capacity: the invariant holds along appends. *)
Lemma append_keeps_invariant d buf count r :
  wf d -> vfs_request count (size d) ->
  ilium_write false alloc d buf count (size d) = Returns r ->
  size (dev_after r) <= capacity (dev_after r).
Proof.
  intros Hw Hq Hr.
  destruct (write_returns_inv d buf count (size d) r
              (proj1 Hw) Hq (Z.le_refl _) Hr)
    as (k & n & _ & _ & _ & _ & _ & Hfit & _ & ->).
  cbn [write_result dev_after size capacity].
  rewrite grow_times_size. exact Hfit.
Qed.

(** A write that starts beyond the capacity leaves the buffer: refused,
    the clipped count [capacity - off] is negative and wraps; granted, the
    copy of [size] old bytes reads past the old buffer. *)
Lemma write_overrun d buf count off :
  sane d -> vfs_request count off ->
  capacity d < off -> off <= size d ->
  ilium_write false alloc d buf count off = Faults.
Proof.
  intros Hs Hq Hover Hle.
  pose proof Hs as (Hlen & Hcap & Hsz). pose proof Hq as (Ho & Hc0 & Hc).
  pose proof max_rw_count_small as Hm.
  assert (Hcond : (wrap_u64 (off + count) >? wrap_u64 (capacity d)) = true)
    by (apply (over_capacity_iff d count off Hs Ho Hc0); lia).
  unfold ilium_write. cbn [down_interruptible Z.eqb negb].
  replace (off >? size d) with false
    by (symmetry; rewrite Z.gtb_ltb; apply Z.ltb_ge; lia).
  change grow_fuel with (S 65).
  destruct (alloc (order_asked d)) as [junk|] eqn:Ha.
  - rewrite (grow_overread alloc 65 d count off junk) by (trivial; lia).
    reflexivity.
  - rewrite grow_refused by assumption. cbn [bind fst snd].
    rewrite wrap_u64_neg by lia. unfold copy_from_user.
    replace (off + (capacity d - off + 2 ^ 64) <=? rlen (data d)) with false
      by (symmetry; apply Z.leb_gt; lia).
    now rewrite andb_false_r.
Qed.

(** A first allocation refused, from any state whose buffer is as long as
    its capacity and with the offset within it: the write stores the room
    there is. *)
Lemma write_refused_at_once d buf count off :
  sane d -> vfs_request count off ->
  off <= size d -> off <= capacity d -> count <= rlen buf ->
  capacity d < off + count ->
  alloc (order_asked d) = None ->
  ilium_write false alloc d buf count off
  = Returns (write_result d buf off (capacity d - off)).
Proof.
  intros Hs Hq Hle Hin Hbuf Hneed Hnone.
  pose proof Hs as (Hlen & Hcap & Hsz). pose proof Hq as (Ho & Hc0 & Hc).
  pose proof max_rw_count_small as Hm.
  assert (Hcond : (wrap_u64 (off + count) >? wrap_u64 (capacity d)) = true)
    by (apply (over_capacity_iff d count off Hs Ho Hc0); lia).
  unfold ilium_write. cbn [down_interruptible Z.eqb negb].
  replace (off >? size d) with false
    by (symmetry; rewrite Z.gtb_ltb; apply Z.ltb_ge; lia).
  change grow_fuel with (S 65).
  rewrite grow_refused by assumption. cbn [bind fst snd].
  rewrite wrap_u64_id by lia. unfold copy_from_user.
  replace ((0 <=? off) && (0 <=? capacity d - off)
           && (off + (capacity d - off) <=? rlen (data d))
           && (capacity d - off <=? rlen buf)) with true by guard_holds.
  cbn [bind]. unfold write_result.
  rewrite wrap_s32_id, !wrap_s64_id by lia. reflexivity.
Qed.

(** Under a realisable allocator the order asked for, the doubled byte
    count, is refused as soon as the capacity is 32 bytes or more. *)
Lemma doubling_is_refused d :
  realisable alloc -> 32 <= capacity d < 2 ^ 31 ->
  alloc (order_asked d) = None.
Proof.
  intros Hreal Hcap. apply Hreal. unfold order_asked.
  rewrite shiftl_1, wrap_s64_id by lia.
  unfold wrap_u32. rewrite Z.mod_small; lia.
Qed.

End WriteSpec.

Section ReadSpec.

Lemma read_interrupted d count off :
  ilium_read true d count off = Returns (mk_io (- ERESTARTSYS) d off []).
Proof. reflexivity. Qed.

Lemma read_out_of_range d count off :
  size d <= off ->
  ilium_read false d count off = Returns (mk_io (- EFAULT) d off []).
Proof.
  intros H. unfold ilium_read. cbn [down_interruptible Z.eqb negb].
  replace (off >=? size d) with true
    by (symmetry; rewrite Z.geb_leb; apply Z.leb_le; lia).
  reflexivity.
Qed.

End ReadSpec.

(** ** Runs used by the statements below *)

Section Runs.

(** What lies beyond the bytes a write stored is what was there before. *)
Lemma write_result_tail g buf off n :
  0 <= off -> 0 <= n -> off + n <= rlen (data g) -> n <= rlen buf ->
  zdrop (off + n) (data (dev_after (write_result g buf off n)))
  = zdrop (off + n) (data g).
Proof.
  intros Ho Hn Hfit Hbuf. unfold write_result. cbn [dev_after data].
  rewrite app_assoc. apply zdrop_app_exact.
  rewrite rlen_app, !rlen_ztake by lia. reflexivity.
Qed.

(** The run of [overlapping_writes], request by request. *)
Lemma overlapping_writes_run :
  run overlapping_writes (mk_session initial_dev (mk_file 0))
  = Returns
      (mk_session
         (dev_after
            (write_result
               (dev_after
                  (write_result initial_dev (zfill x01 131072) 0 131072))
               [x02] 0 1))
         (mk_file (0 + 1))).
Proof.
  assert (Hs0 : sane initial_dev) by exact (proj1 initial_dev_wf).
  assert (Hc0 : capacity initial_dev = 131072) by reflexivity.
  assert (Hz0 : size initial_dev = 0) by reflexivity.
  assert (Hm : MAX_RW_COUNT = 2147479552) by reflexivity.
  set (r1 := write_result initial_dev (zfill x01 131072) 0 131072).
  assert (Hw1 : ilium_write false refuse_all initial_dev
                  (zfill x01 131072) 131072 0 = Returns r1).
  { apply write_in_place; try assumption; try lia.
    - unfold vfs_request. lia.
    - rewrite rlen_zfill; lia. }
  assert (Hz1 : size (dev_after r1) = 131072)
    by (unfold r1; cbn [write_result dev_after size]; lia).
  assert (Hs1 : sane (dev_after r1)).
  { apply write_result_sane; try assumption; try lia.
    rewrite rlen_zfill; lia. }
  assert (Hseek : ilium_llseek false (dev_after r1) (mk_file (0 + 131072))
                    0 SEEK_SET = mk_seek 0 (mk_file 0)).
  { unfold ilium_llseek.
    cbn [down_interruptible Z.eqb negb SEEK_SET]. rewrite Hz1. reflexivity. }
  assert (Hw2 : ilium_write false refuse_all (dev_after r1) [x02] 1 0
                = Returns (write_result (dev_after r1) [x02] 0 1)).
  { apply write_in_place; try assumption; try lia.
    - unfold vfs_request. lia.
    - unfold r1. cbn [write_result dev_after capacity]. lia.
    - change (rlen [x02]) with 1. lia. }
  unfold overlapping_writes.
  cbn [run serve bind dev handle f_pos ilium_open snd].
  rewrite Hw1. cbn [bind dev handle f_pos offp_after].
  change (offp_after r1) with (0 + 131072).
  rewrite Hseek.
  cbn [run serve bind dev handle f_pos file_after].
  rewrite Hw2. reflexivity.
Qed.

(** The state [overlapping_writes] ends in: reachable, its buffer as long
    as its capacity, and one byte more counted than it holds. *)
Lemma overcounted_reachable :
  exists s,
    reachable s /\ sane (dev s) /\
    size (dev s) = 131073 /\ capacity (dev s) = 131072.
Proof.
  eexists. split; [exists overlapping_writes; apply overlapping_writes_run|].
  assert (Hc0 : capacity initial_dev = 131072) by reflexivity.
  assert (Hz0 : size initial_dev = 0) by reflexivity.
  cbn [dev]. split; [|split; [|reflexivity]].
  - apply write_result_sane; try lia.
    + apply write_result_sane; try lia.
      * exact (proj1 initial_dev_wf).
      * rewrite rlen_zfill; lia.
    + cbn [write_result dev_after capacity]. lia.
    + change (rlen [x02]) with 1. lia.
    + cbn [write_result dev_after size]. lia.
  - cbn [write_result dev_after size]. lia.
Qed.

End Runs.

(** ** The claims *)

(** C1 does not hold: the four requests of [overlapping_writes] take the
    fresh device to a state with [size = 131073] above
    [capacity = 131072]; every request returns normally. *)
Theorem C1_size_exceeds_capacity :
  exists s,
    reachable s /\
    size (dev s) = 131073 /\ capacity (dev s) = 131072 /\
    capacity (dev s) < size (dev s).
Proof.
  eexists. split; [exists overlapping_writes; apply overlapping_writes_run|].
  cbn [dev write_result dev_after size capacity].
  change (size initial_dev) with 0.
  change (capacity initial_dev) with 131072.
  repeat split; lia.
Qed.

(** C2: every write that returns a byte count adds exactly that count to
    [size], wherever it wrote; two writes of 10 bytes at offset 0 on the
    fresh device leave [size = 20], with the buffer beyond the first 10
    bytes as it was. *)
Theorem C2_size_accumulates :
  (forall alloc d buf count off r,
      sane d -> vfs_request count off ->
      ilium_write false alloc d buf count off = Returns r ->
      0 <= retval r ->
      size (dev_after r) = size d + retval r) /\
  (forall alloc1 alloc2 buf1 buf2,
      rlen buf1 = 10 -> rlen buf2 = 10 ->
      exists r1 r2,
        ilium_write false alloc1 initial_dev buf1 10 0 = Returns r1 /\
        ilium_write false alloc2 (dev_after r1) buf2 10 0 = Returns r2 /\
        retval r1 = 10 /\ retval r2 = 10 /\
        size (dev_after r2) = 20 /\
        capacity (dev_after r2) = capacity initial_dev /\
        zdrop 10 (data (dev_after r2)) = zdrop 10 (data initial_dev)).
Proof.
  split.
  - intros alloc d buf count off r Hs Hq Hw Hret.
    destruct (Z_le_gt_dec off (size d)) as [Hle|Hgt].
    + destruct (write_returns_inv alloc d buf count off r Hs Hq Hle Hw)
        as (k & n & _ & _ & _ & _ & _ & _ & _ & ->).
      unfold write_result. cbn [dev_after size retval].
      now rewrite grow_times_size.
    + rewrite write_out_of_range in Hw by lia.
      injection Hw as <-. cbn [retval] in Hret. unfold EFAULT in Hret. lia.
  - intros alloc1 alloc2 buf1 buf2 H1 H2.
    pose proof initial_dev_wf as [Hs0 _].
    pose proof Hs0 as (Hlen0 & _ & _).
    assert (Hq : vfs_request 10 0)
      by (unfold vfs_request, MAX_RW_COUNT, PAGE_SIZE; lia).
    assert (Hc0 : capacity initial_dev = 131072) by reflexivity.
    assert (Hz0 : size initial_dev = 0) by reflexivity.
    set (r1 := write_result initial_dev buf1 0 10).
    assert (Hs1 : sane (dev_after r1))
      by (apply write_result_sane; trivial; lia).
    pose proof Hs1 as (Hlen1 & _ & _).
    assert (Hc1 : capacity (dev_after r1) = 131072) by exact Hc0.
    exists r1, (write_result (dev_after r1) buf2 0 10).
    split; [apply write_in_place; trivial; lia|].
    split.
    { apply write_in_place; trivial; try lia.
      unfold r1. cbn [write_result dev_after size]. lia. }
    split; [reflexivity|]. split; [reflexivity|].
    split; [cbn [write_result dev_after size r1]; lia|].
    split; [reflexivity|].
    transitivity (zdrop 10 (data (dev_after r1))).
    + apply (write_result_tail (dev_after r1) buf2 0 10); lia.
    + apply (write_result_tail initial_dev buf1 0 10); lia.
Qed.

Lemma C2_size_accumulates_witness :
  sane small_dev /\ vfs_request 3 2 /\
  size (dev_after (write_result small_dev [x01; x02; x03] 2 3))
  = size small_dev + 3.
Proof.
  assert (Hs : sane small_dev).
  { unfold sane. vm_compute. repeat split; congruence. }
  assert (Hq : vfs_request 3 2).
  { unfold vfs_request. vm_compute. repeat split; congruence. }
  split; [exact Hs|]. split; [exact Hq|].
  apply (proj1 C2_size_accumulates refuse_all small_dev [x01; x02; x03] 3 2
           (write_result small_dev [x01; x02; x03] 2 3) Hs Hq).
  - vm_compute. reflexivity.
  - vm_compute. discriminate.
Defined.

(** C3: with the lock held, a read at or past [size] and a write past
    [size] return [-EFAULT] and change nothing, and from a state with
    [size <= capacity] a write exactly at [size] returns a byte count.
    But the module reaches a state with more counted than the buffer
    holds, and there the write at [size] passes the bounds check and then
    leaves the buffer, whatever the allocator answers, instead of
    returning a byte count. *)
Theorem C3_bounds_checks :
  (forall d count off,
      size d <= off ->
      ilium_read false d count off = Returns (mk_io (- EFAULT) d off [])) /\
  (forall alloc d buf count off,
      size d < off ->
      ilium_write false alloc d buf count off
      = Returns (mk_io (- EFAULT) d off [])) /\
  (forall alloc d buf count off,
      wf d -> vfs_request count off -> count <= rlen buf ->
      off = size d ->
      exists r,
        ilium_write false alloc d buf count off = Returns r /\
        0 <= retval r <= count) /\
  (exists s,
      reachable s /\ capacity (dev s) < size (dev s) /\
      forall alloc buf count,
        vfs_request count (size (dev s)) ->
        ilium_write false alloc (dev s) buf count (size (dev s)) = Faults).
Proof.
  split; [exact read_out_of_range|]. split; [|split].
  - intros alloc d buf count off H. now apply write_out_of_range.
  - intros alloc d buf count off Hw Hq Hbuf ->.
    destruct (write_total alloc d buf count (size d) Hw Hq (Z.le_refl _) Hbuf)
      as [r Hr].
    exists r. split; [assumption|].
    destruct (write_returns_inv alloc d buf count (size d) r
                (proj1 Hw) Hq (Z.le_refl _) Hr)
      as (k & n & _ & _ & _ & _ & Hn & _ & _ & ->).
    exact Hn.
  - destruct overcounted_reachable as (s & Hreach & Hs & Hsize & Hcap).
    exists s. split; [assumption|]. split; [lia|].
    intros alloc buf count Hq. apply write_overrun; try assumption; lia.
Qed.

Lemma C3_bounds_checks_witness :
  ilium_read false small_dev 2 4 = Returns (mk_io (- EFAULT) small_dev 4 []) /\
  ilium_write false refuse_all small_dev [x01] 1 5
  = Returns (mk_io (- EFAULT) small_dev 5 []) /\
  exists r,
    ilium_write false refuse_all small_dev [x01; x02] 2 4 = Returns r /\
    0 <= retval r <= 2.
Proof.
  destruct C3_bounds_checks as (Hread & Hwrite & Hedge & _).
  split; [apply Hread; vm_compute; discriminate|].
  split; [apply Hwrite; vm_compute; reflexivity|].
  apply Hedge.
  - unfold wf, sane. vm_compute. repeat split; congruence.
  - unfold vfs_request. vm_compute. repeat split; congruence.
  - vm_compute. discriminate.
  - reflexivity.
Defined.

(** C4: when the allocator grants [k] doublings and refuses the next one
    while the request still ends beyond the capacity, a write that starts
    within the capacity does not fail: it stores the first
    [capacity - off] bytes of the data at [off], which fills the buffer to
    its end, and returns that count.  But the bounds check admits offsets
    up to [size], and the module reaches a state with [size] above the
    capacity: there, for a write at [size] with the allocation refused,
    [capacity - off] is negative and the write leaves the buffer instead
    of returning a count. *)
Theorem C4_truncated_write :
  (forall alloc d buf count off (k : nat),
      sane d -> vfs_request count off ->
      off <= size d -> off <= capacity d -> count <= rlen buf ->
      ((0 < k)%nat -> size d <= capacity d) ->
      (forall i : nat, (i < k)%nat ->
         alloc (order_asked (grow_times i d)) <> None) ->
      capacity (grow_times k d) < off + count ->
      alloc (order_asked (grow_times k d)) = None ->
      let room := capacity (grow_times k d) - off in
      exists r,
        ilium_write false alloc d buf count off = Returns r /\
        retval r = room /\ 0 <= room < count /\
        capacity (dev_after r) = capacity (grow_times k d) /\
        data (dev_after r)
        = ztake off (data (grow_times k d)) ++ ztake room buf /\
        size (dev_after r) = size d + room /\
        offp_after r = off + room) /\
  (exists s,
      reachable s /\
      forall alloc buf count,
        vfs_request count (size (dev s)) ->
        alloc (order_asked (dev s)) = None ->
        capacity (dev s) < size (dev s) + count /\
        capacity (dev s) - size (dev s) < 0 /\
        ilium_write false alloc (dev s) buf count (size (dev s)) = Faults).
Proof.
  split.
  - intros alloc d buf count off k Hs Hq Hle Hin Hbuf Hk Hgr Hneed Hnone room.
    pose proof Hs as (Hlen & Hcap & Hsz).
    pose proof Hq as (Ho & Hc0 & Hc).
    pose proof max_rw_count_small as Hm.
    assert (Hmono : capacity d <= capacity (grow_times k d))
      by (apply (grow_times_capacity_mono 0 k d); lia).
    assert (Hsg : sane (grow_times k d)).
    { apply grow_times_sane; [assumption | assumption |].
      rewrite <- grow_times_capacity. lia. }
    assert (Hwrite : ilium_write false alloc d buf count off
                     = Returns (write_result (grow_times k d) buf off room)).
    { destruct k as [|k].
      - now apply write_refused_at_once.
      - assert (Hw : wf d) by (split; [assumption | apply Hk; lia]).
        apply write_exits_at; try assumption.
        + intros i Hi. split; [|now apply Hgr].
          pose proof (grow_times_capacity_mono i (S k) d (proj1 Hcap)). lia.
        + unfold room.
          rewrite <- (wrap_u64_id (capacity (grow_times (S k) d) - off))
            by lia.
          now apply exit_refused. }
    exists (write_result (grow_times k d) buf off room).
    split; [exact Hwrite|].
    unfold write_result. cbn [retval dev_after capacity data size offp_after].
    rewrite grow_times_size.
    destruct Hsg as (Hglen & _ & _).
    replace (off + room) with (capacity (grow_times k d))
      by (unfold room; lia).
    rewrite zdrop_all, app_nil_r by lia.
    repeat split; unfold room; lia.
  - destruct overcounted_reachable as (s & Hreach & Hs & Hsize & Hcap).
    exists s. split; [assumption|].
    intros alloc buf count Hq Hnone. destruct Hq as (Ho & Hc0 & Hc).
    split; [lia|]. split; [lia|].
    apply write_overrun; try assumption; [split; [|split]; assumption|lia|lia].
Qed.

Lemma C4_truncated_write_witness :
  exists r,
    ilium_write false grant_once small_dev (zfill x07 30) 30 4 = Returns r /\
    retval r = 12 /\ 0 <= 12 < 30 /\
    capacity (dev_after r) = 16 /\
    data (dev_after r)
    = ztake 4 (data (grow_times 1 small_dev)) ++ ztake 12 (zfill x07 30) /\
    size (dev_after r) = 4 + 12 /\
    offp_after r = 4 + 12.
Proof.
  apply (proj1 C4_truncated_write grant_once small_dev (zfill x07 30) 30 4
           1%nat).
  - unfold sane. vm_compute. repeat split; congruence.
  - unfold vfs_request. vm_compute. repeat split; congruence.
  - vm_compute. discriminate.
  - vm_compute. discriminate.
  - vm_compute. discriminate.
  - intros _. vm_compute. discriminate.
  - intros [|i] Hi; [vm_compute; discriminate | lia].
  - vm_compute. reflexivity.
  - vm_compute. reflexivity.
Defined.

(** Were every doubling granted, the whole request would be written and
    the capacity would be the least power-of-two multiple of the growth
    unit that is at least both the old capacity and the end of the
    write. *)
Lemma granted_write_capacity alloc d buf count off :
  wf d -> pow2_multiple GROWTH_UNIT (capacity d) ->
  always_grants alloc -> vfs_request count off ->
  off <= size d -> count <= rlen buf ->
  exists r,
    ilium_write false alloc d buf count off = Returns r /\
    retval r = count /\
    least_pow2_multiple GROWTH_UNIT
      (Z.max (capacity d) (off + count)) (capacity (dev_after r)).
Proof.
  intros Hw [j Hj] Hall Hq Hle Hbuf.
  destruct (granted_write_shape alloc d buf count off Hw Hall Hq Hle Hbuf)
    as (k & Hr & Hroom & Hneed).
  pose proof Hw as [(_ & Hcap & _) _].
  exists (write_result (grow_times k d) buf off count).
  split; [assumption|]. split; [reflexivity|].
  cbn [write_result dev_after capacity].
  assert (Hmono : capacity d <= capacity (grow_times k d))
    by (apply (grow_times_capacity_mono 0 k d); lia).
  assert (Hu : 0 < GROWTH_UNIT) by (rewrite growth_unit_value; lia).
  split; [|split].
  - exists (j + k)%nat. rewrite grow_times_capacity, Hj.
    rewrite Nat2Z.inj_add, Z.pow_add_r by lia. ring.
  - lia.
  - intros c' [m Hm] Hlo. destruct k as [|k]; [cbn [grow_times]; lia|].
    assert (Hlast : capacity (grow_times k d) < off + count)
      by (apply Hneed; lia).
    rewrite grow_times_capacity, Hj in Hlast.
    rewrite <- Z.mul_assoc, <- Z.pow_add_r, <- Nat2Z.inj_add in Hlast by lia.
    assert (Hexp : (j + k < m)%nat).
    { apply pow2_lt_exponent.
      apply (Z.mul_lt_mono_pos_l GROWTH_UNIT); [assumption|]. lia. }
    rewrite grow_times_capacity, Hj, Hm.
    rewrite <- Z.mul_assoc, <- Z.pow_add_r, <- Nat2Z.inj_add by lia.
    apply Z.mul_le_mono_nonneg_l; [lia|].
    apply Z.pow_le_mono_r; lia.
Qed.

(** C5 does not hold: the loop asks the allocator for the doubled byte
    count as a page order (262144 on the fresh device, where [ilium_init]
    asks for order 5), which no realisable allocator grants.  So no write
    ever grows the buffer, and on the fresh device a write of 200000
    bytes at offset 0 is cut to 131072 bytes: capacity stays 131072 and
    size becomes 131072, not 262144 and 200000. *)
Theorem C5_growth_is_never_granted :
  (forall alloc d buf count off r,
      realisable alloc -> sane d -> 32 <= capacity d < 2 ^ 31 ->
      vfs_request count off ->
      ilium_write false alloc d buf count off = Returns r ->
      capacity (dev_after r) = capacity d) /\
  (forall alloc buf,
      realisable alloc -> rlen buf = 200000 ->
      order_asked initial_dev = 262144 /\
      ilium_write false alloc initial_dev buf 200000 0
      = Returns (write_result initial_dev buf 0 131072) /\
      retval (write_result initial_dev buf 0 131072) = 131072 /\
      capacity (dev_after (write_result initial_dev buf 0 131072)) = 131072 /\
      size (dev_after (write_result initial_dev buf 0 131072)) = 131072).
Proof.
  split.
  - intros alloc d buf count off r Hreal Hs Hcap Hq Hw.
    destruct (Z_le_gt_dec off (size d)) as [Hle|Hgt].
    + destruct (write_returns_inv alloc d buf count off r Hs Hq Hle Hw)
        as (k & n & Hp & _ & _ & _ & _ & _ & _ & ->).
      cbn [write_result dev_after capacity].
      destruct k as [|k]; [reflexivity|].
      destruct (Hp 0%nat) as [_ Hgrant]; [lia|].
      exfalso. apply Hgrant. cbn [grow_times].
      now apply doubling_is_refused.
    + rewrite write_out_of_range in Hw by lia. now injection Hw as <-.
  - intros alloc buf Hreal Hbuf.
    assert (Hc0 : capacity initial_dev = 131072) by reflexivity.
    assert (Hz0 : size initial_dev = 0) by reflexivity.
    split; [reflexivity|]. split; [|repeat split].
    change 131072 with (capacity initial_dev - 0) at 1.
    apply write_refused_at_once; try lia.
    + exact (proj1 initial_dev_wf).
    + unfold vfs_request, MAX_RW_COUNT, PAGE_SIZE. lia.
    + apply doubling_is_refused; [assumption | lia].
Qed.

Lemma C5_growth_is_never_granted_witness :
  order_asked initial_dev = 262144 /\
  ilium_write false refuse_all initial_dev (zfill x01 200000) 200000 0
  = Returns (write_result initial_dev (zfill x01 200000) 0 131072) /\
  retval (write_result initial_dev (zfill x01 200000) 0 131072) = 131072 /\
  capacity (dev_after (write_result initial_dev (zfill x01 200000) 0 131072))
  = 131072 /\
  size (dev_after (write_result initial_dev (zfill x01 200000) 0 131072))
  = 131072.
Proof.
  apply (proj2 C5_growth_is_never_granted refuse_all (zfill x01 200000)).
  - intros order _. reflexivity.
  - vm_compute. reflexivity.
Defined.

(** C6 (as amended): when a write returns the full count, and the data is
    not empty or the offset was below [size], a read of that many bytes
    at the same offset right afterwards returns exactly the data, leaves
    the device as it is and moves [*offp] past the bytes read. *)
Theorem C6_read_after_write :
  forall alloc d buf count off r,
    sane d -> vfs_request count off ->
    0 < count \/ off < size d -> rlen buf = count ->
    ilium_write false alloc d buf count off = Returns r ->
    retval r = count ->
    ilium_read false (dev_after r) count off
    = Returns (mk_io count (dev_after r) (off + count) buf).
Proof.
  intros alloc d buf count off r Hs Hq Hpos Hbuf Hw Hret.
  pose proof Hq as (Ho & Hc0 & Hc).
  pose proof max_rw_count_small as Hm.
  assert (Hle : off <= size d).
  { destruct (Z_le_gt_dec off (size d)) as [Hle|Hgt]; [assumption|].
    rewrite write_out_of_range in Hw by lia.
    injection Hw as <-. cbn [retval] in Hret. unfold EFAULT in Hret. lia. }
  destruct (write_returns_inv alloc d buf count off r Hs Hq Hle Hw)
    as (k & n & _ & _ & Hsg & _ & _ & Hfit & _ & ->).
  cbn [write_result retval] in Hret. subst n.
  destruct Hs as (_ & _ & Hsz). destruct Hsg as (Hglen & Hgcap & _).
  unfold ilium_read, write_result.
  cbn [down_interruptible Z.eqb negb dev_after size data].
  rewrite grow_times_size.
  replace (off >=? size d + count) with false
    by (symmetry; rewrite Z.geb_leb; apply Z.leb_gt; lia).
  rewrite !wrap_u64_id by lia.
  replace (off + count >? size d + count) with false
    by (symmetry; rewrite Z.gtb_ltb; apply Z.ltb_ge; lia).
  rewrite copy_to_user_stored by (rewrite ?rlen_ztake; lia).
  cbn [bind]. rewrite (ztake_all count buf) by lia.
  rewrite wrap_s32_id, wrap_s64_id by lia. reflexivity.
Qed.

Lemma C6_read_after_write_witness :
  ilium_read false
    (dev_after (write_result small_dev [x01; x02; x03] 2 3)) 3 2
  = Returns (mk_io 3 (dev_after (write_result small_dev [x01; x02; x03] 2 3))
               (2 + 3) [x01; x02; x03]) /\
  ilium_read false (dev_after (write_result small_dev [] 2 0)) 0 2
  = Returns (mk_io 0 (dev_after (write_result small_dev [] 2 0)) (2 + 0) []).
Proof.
  split.
  - apply (C6_read_after_write refuse_all small_dev [x01; x02; x03] 3 2).
    + unfold sane. vm_compute. repeat split; congruence.
    + unfold vfs_request. vm_compute. repeat split; congruence.
    + left. reflexivity.
    + reflexivity.
    + vm_compute. reflexivity.
    + reflexivity.
  - apply (C6_read_after_write refuse_all small_dev [] 0 2).
    + unfold sane. vm_compute. repeat split; congruence.
    + unfold vfs_request. vm_compute. repeat split; congruence.
    + right. reflexivity.
    + reflexivity.
    + vm_compute. reflexivity.
    + reflexivity.
Defined.

(** C6 as first stated fails for empty data at the end of the store: on
    the fresh device a write of no bytes at offset 0 returns 0, the whole
    count, and the read of 0 bytes at offset 0 that follows returns
    [-EFAULT] instead of the (empty) data. *)
Lemma C6_counterexample :
  exists r,
    ilium_write false refuse_all initial_dev [] 0 0 = Returns r /\
    retval r = 0 /\
    ilium_read false (dev_after r) 0 0
    = Returns (mk_io (- EFAULT) (dev_after r) 0 []) /\
    ~ (exists r', ilium_read false (dev_after r) 0 0 = Returns r' /\
                  retval r' = 0 /\ delivered r' = []).
Proof.
  assert (Hw : ilium_write false refuse_all initial_dev [] 0 0
               = Returns (write_result initial_dev [] 0 0)).
  { apply write_in_place.
    - exact (proj1 initial_dev_wf).
    - unfold vfs_request, MAX_RW_COUNT, PAGE_SIZE. lia.
    - change (size initial_dev) with 0. lia.
    - change (capacity initial_dev) with 131072. lia.
    - change (rlen []) with 0. lia. }
  assert (Hr : ilium_read false (dev_after (write_result initial_dev [] 0 0)) 0 0
               = Returns (mk_io (- EFAULT)
                            (dev_after (write_result initial_dev [] 0 0)) 0 [])).
  { apply read_out_of_range. cbn [write_result dev_after size].
    change (size initial_dev) with 0. lia. }
  exists (write_result initial_dev [] 0 0).
  split; [exact Hw|]. split; [reflexivity|]. split; [exact Hr|].
  intros (r' & Hr' & Hret & _). rewrite Hr in Hr'.
  apply (f_equal (fun o => match o with Returns x => retval x | _ => 0 end))
    in Hr'.
  cbn [retval] in Hr'. unfold EFAULT in Hr'. lia.
Qed.

(** C7: with the lock held and [whence] one of SET, CUR, END, as long as
    the target fits [loff_t] the seek moves the position to the target
    and returns it exactly when the target is below [size], and a target
    at or past [size] returns [-EFAULT] and leaves the position alone.
    But the sums of the CUR and END cases are computed in [loff_t]: when
    cursor + delta, or size - 1 + delta, reaches 2^63 it wraps to a
    negative value, which is below [size], and the seek moves the
    position there and returns it although the target is past [size]. *)
Theorem C7_seek_semantics :
  (forall d f off whence,
      whence = SEEK_SET \/ whence = SEEK_CUR \/ whence = SEEK_END ->
      0 <= size d < 2 ^ 63 ->
      loff_t_range (seek_target d f off whence) ->
      let p := seek_target d f off whence in
      (ilium_llseek false d f off whence = mk_seek p (mk_file p)
       <-> p < size d) /\
      (size d <= p ->
       ilium_llseek false d f off whence = mk_seek (- EFAULT) f)) /\
  (forall d f off whence,
      whence = SEEK_CUR \/ whence = SEEK_END ->
      0 <= size d < 2 ^ 63 ->
      loff_t_range (f_pos f) -> loff_t_range off ->
      2 ^ 63 <= seek_target d f off whence ->
      let p := seek_target d f off whence in
      size d <= p /\
      ilium_llseek false d f off whence
      = mk_seek (p - 2 ^ 64) (mk_file (p - 2 ^ 64)) /\
      p - 2 ^ 64 < 0).
Proof.
  split.
  - intros d f off whence Hwh Hsz Hr p.
    assert (Hcases :
              ilium_llseek false d f off whence
              = if p >=? size d then mk_seek (- EFAULT) f
                else mk_seek p (mk_file p)).
    { unfold ilium_llseek, p, seek_target in *. unfold loff_t_range in Hr.
      cbn [down_interruptible Z.eqb negb].
      destruct Hwh as [-> | [-> | ->]];
        cbn [SEEK_SET SEEK_CUR SEEK_END Z.eqb Pos.eqb] in *.
      - reflexivity.
      - rewrite wrap_s64_id by lia. reflexivity.
      - rewrite (wrap_s64_id (size d - 1)) by lia.
        rewrite wrap_s64_id by lia. reflexivity. }
    rewrite Hcases. rewrite Z.geb_leb.
    destruct (Z.leb_spec (size d) p) as [Hge|Hlt].
    + split; [|reflexivity]. split; [|lia].
      intros Heq. injection Heq as Hp _. unfold EFAULT in Hp. lia.
    + split; [|lia]. split; [intros _; assumption | reflexivity].
  - intros d f off whence Hwh Hsz Hf Ho Hover p.
    unfold loff_t_range in Hf, Ho.
    assert (Hwrap : forall z, 2 ^ 63 <= z < 2 ^ 64 -> wrap_s64 z = z - 2 ^ 64).
    { intros z Hz. unfold wrap_s64.
      replace (z + 2 ^ 63) with (z - 2 ^ 63 + 1 * 2 ^ 64) by ring.
      rewrite Z.mod_add by lia. rewrite Z.mod_small; lia. }
    unfold ilium_llseek, p, seek_target in *.
    cbn [down_interruptible Z.eqb negb].
    destruct Hwh as [-> | ->];
      cbn [SEEK_SET SEEK_CUR SEEK_END Z.eqb Pos.eqb] in *.
    + rewrite Hwrap by lia.
      replace (f_pos f + off - 2 ^ 64 >=? size d) with false
        by (symmetry; rewrite Z.geb_leb; apply Z.leb_gt; lia).
      repeat split; lia.
    + rewrite (wrap_s64_id (size d - 1)) by lia.
      rewrite Hwrap by lia.
      replace (size d - 1 + off - 2 ^ 64 >=? size d) with false
        by (symmetry; rewrite Z.geb_leb; apply Z.leb_gt; lia).
      repeat split; lia.
Qed.

Lemma C7_seek_semantics_witness :
  (ilium_llseek false small_dev (mk_file 1) 2 SEEK_CUR
   = mk_seek 3 (mk_file 3) <-> 3 < size small_dev) /\
  ilium_llseek false small_dev (mk_file 1) 1 SEEK_END
  = mk_seek (- EFAULT) (mk_file 1) /\
  ilium_llseek false small_dev (mk_file 1) (2 ^ 63 - 1) SEEK_CUR
  = mk_seek (- 2 ^ 63) (mk_file (- 2 ^ 63)).
Proof.
  destruct C7_seek_semantics as [Hin Hover].
  split; [|split].
  - apply (Hin small_dev (mk_file 1) 2 SEEK_CUR).
    + right; left; reflexivity.
    + vm_compute. split; [discriminate | reflexivity].
    + unfold loff_t_range. vm_compute. split; [discriminate | reflexivity].
  - apply (Hin small_dev (mk_file 1) 1 SEEK_END).
    + right; right; reflexivity.
    + vm_compute. split; [discriminate | reflexivity].
    + unfold loff_t_range. vm_compute. split; [discriminate | reflexivity].
    + vm_compute. discriminate.
  - apply (Hover small_dev (mk_file 1) (2 ^ 63 - 1) SEEK_CUR).
    + left; reflexivity.
    + vm_compute. split; [discriminate | reflexivity].
    + unfold loff_t_range. vm_compute. split; [discriminate | reflexivity].
    + unfold loff_t_range. vm_compute. split; [discriminate | reflexivity].
    + vm_compute. discriminate.
Defined.

(** C8: an interrupted wait for the lock leaves the device and the
    position as they were in all three entry points.  The write and the
    read return [-ERESTARTSYS]; the seek returns [-EFAULT], the value it
    also returns for a target out of range. *)
Theorem C8_interrupted_wait :
  forall alloc d buf count f off whence,
    ilium_write true alloc d buf count (f_pos f)
    = Returns (mk_io (- ERESTARTSYS) d (f_pos f) []) /\
    ilium_read true d count (f_pos f)
    = Returns (mk_io (- ERESTARTSYS) d (f_pos f) []) /\
    ilium_llseek true d f off whence = mk_seek (- EFAULT) f /\
    - EFAULT <> - ERESTARTSYS.
Proof.
  intros. repeat split. unfold EFAULT, ERESTARTSYS. lia.
Qed.

(** C9: a write that returns a byte count leaves [*offp], the handle's
    position, advanced by exactly that count. *)
Theorem C9_write_advances_cursor :
  (forall alloc d buf count off r,
      sane d -> vfs_request count off ->
      ilium_write false alloc d buf count off = Returns r ->
      0 <= retval r ->
      offp_after r = off + retval r) /\
  (forall alloc s buf count s',
      sane (dev s) -> vfs_request count (f_pos (handle s)) ->
      serve s (ReqWrite false alloc buf count) = Returns s' ->
      exists r,
        ilium_write false alloc (dev s) buf count (f_pos (handle s))
        = Returns r /\
        dev s' = dev_after r /\
        (0 <= retval r -> f_pos (handle s') = f_pos (handle s) + retval r)).
Proof.
  assert (Hoffp : forall alloc d buf count off r,
             sane d -> vfs_request count off ->
             ilium_write false alloc d buf count off = Returns r ->
             0 <= retval r ->
             offp_after r = off + retval r).
  { intros alloc d buf count off r Hs Hq Hw Hret.
    destruct (Z_le_gt_dec off (size d)) as [Hle|Hgt].
    - destruct (write_returns_inv alloc d buf count off r Hs Hq Hle Hw)
        as (k & n & _ & _ & _ & _ & _ & _ & _ & ->).
      reflexivity.
    - rewrite write_out_of_range in Hw by lia.
      injection Hw as <-. cbn [retval] in Hret. unfold EFAULT in Hret. lia. }
  split; [exact Hoffp|].
  intros alloc s buf count s' Hs Hq Hserve.
  cbn [serve] in Hserve.
  destruct (ilium_write false alloc (dev s) buf count (f_pos (handle s)))
    as [r| |] eqn:Hw; cbn [bind] in Hserve; try discriminate.
  injection Hserve as <-. exists r. split; [reflexivity|].
  split; [reflexivity|]. intros Hret. cbn [handle f_pos].
  now apply (Hoffp alloc (dev s) buf count).
Qed.

Lemma C9_write_advances_cursor_witness :
  sane small_dev /\ vfs_request 3 2 /\
  offp_after (write_result small_dev [x01; x02; x03] 2 3) = 2 + 3.
Proof.
  assert (Hs : sane small_dev).
  { unfold sane. vm_compute. repeat split; congruence. }
  assert (Hq : vfs_request 3 2).
  { unfold vfs_request. vm_compute. repeat split; congruence. }
  split; [exact Hs|]. split; [exact Hq|].
  apply (proj1 C9_write_advances_cursor refuse_all small_dev
           [x01; x02; x03] 3 2
           (write_result small_dev [x01; x02; x03] 2 3) Hs Hq).
  - vm_compute. reflexivity.
  - vm_compute. discriminate.
Defined.

(** C10: with the lock held, a [whence] that is none of SET, CUR, END
    passes through the switch untouched: no comparison with [size], the
    position kept, and the position returned. *)
Theorem C10_unknown_whence :
  forall d f off whence,
    whence <> SEEK_SET -> whence <> SEEK_CUR -> whence <> SEEK_END ->
    ilium_llseek false d f off whence = mk_seek (f_pos f) f.
Proof.
  intros d f off whence H0 H1 H2. unfold ilium_llseek.
  cbn [down_interruptible Z.eqb negb].
  apply Z.eqb_neq in H0, H1, H2. now rewrite H0, H1, H2.
Qed.

Lemma C10_unknown_whence_witness :
  ilium_llseek false small_dev (mk_file 100) (- 5) 7
  = mk_seek 100 (mk_file 100).
Proof.
  apply (C10_unknown_whence small_dev (mk_file 100) (- 5) 7);
    vm_compute; discriminate.
Defined.

(** ** Further properties of the entry points *)

Section MoreRegions.

Lemma ztake_add a b r :
  0 <= a -> 0 <= b ->
  ztake (a + b) r = ztake a r ++ ztake b (zdrop a r).
Proof.
  intros Ha Hb. unfold ztake, zdrop.
  rewrite Z2Nat.inj_add by lia.
  generalize (Z.to_nat a) as n, (Z.to_nat b) as m. clear.
  intros n m. revert r. induction n as [|n IH]; intros r.
  - reflexivity.
  - destruct r as [|x r]; [now rewrite !firstn_nil|].
    cbn [Nat.add firstn skipn app]. now rewrite IH.
Qed.

Lemma zdrop_zdrop a b r :
  0 <= a -> 0 <= b -> zdrop b (zdrop a r) = zdrop (a + b) r.
Proof.
  intros Ha Hb. unfold zdrop. rewrite skipn_skipn.
  f_equal. lia.
Qed.

Lemma ztake_zdrop_id n r : ztake n r ++ zdrop n r = r.
Proof. unfold ztake, zdrop. apply firstn_skipn. Qed.

Lemma zfill_add c a b :
  0 <= a -> 0 <= b -> zfill c (a + b) = zfill c a ++ zfill c b.
Proof.
  intros Ha Hb. unfold zfill. rewrite Z2Nat.inj_add by lia.
  apply repeat_app.
Qed.

Lemma zfill_nonpos c n : n <= 0 -> zfill c n = [].
Proof.
  intros H. unfold zfill. now replace (Z.to_nat n) with 0%nat by lia.
Qed.

Lemma zdrop_app_l n r1 r2 :
  0 <= n <= rlen r1 -> zdrop n (r1 ++ r2) = zdrop n r1 ++ r2.
Proof.
  unfold rlen, zdrop. intros H. rewrite skipn_app.
  now replace (Z.to_nat n - length r1)%nat with 0%nat by lia.
Qed.

Lemma zdrop_app_r n r1 r2 :
  rlen r1 <= n -> zdrop n (r1 ++ r2) = zdrop (n - rlen r1) r2.
Proof.
  unfold rlen, zdrop. intros H. rewrite skipn_app.
  rewrite skipn_all2 by lia. cbn [app]. f_equal. lia.
Qed.

Lemma zdrop_zfill c a n :
  0 <= a -> zdrop a (zfill c n) = zfill c (n - a).
Proof.
  intros Ha. unfold zdrop, zfill.
  replace (Z.to_nat (n - a)) with (Z.to_nat n - Z.to_nat a)%nat by lia.
  generalize (Z.to_nat a) as i, (Z.to_nat n) as m. clear.
  induction i as [|i IH]; intros m.
  - now rewrite Nat.sub_0_r.
  - destruct m as [|m]; [reflexivity|]. cbn [repeat skipn Nat.sub]. apply IH.
Qed.

End MoreRegions.

Section ReadMore.

Lemma readable_bounds d count off :
  vfs_request count off -> off < size d ->
  0 <= readable d count off <= count /\
  readable d count off <= size d - off.
Proof. intros (Ho & Hc0 & Hc) Hlt. unfold readable. lia. Qed.

(** The count [ilium_read] settles on, with the comparison done. *)
Lemma read_count d count off :
  sane d -> vfs_request count off -> off < size d ->
  (if wrap_u64 (off + count) >? wrap_u64 (size d)
   then wrap_u64 (size d - off) else count) = readable d count off.
Proof.
  intros (_ & _ & Hsz) (Ho & Hc0 & Hc) Hlt.
  pose proof max_rw_count_small as Hm. unfold readable.
  rewrite !wrap_u64_id by lia. rewrite Z.gtb_ltb.
  destruct (Z.ltb_spec (size d) (off + count)); lia.
Qed.

Lemma read_within d count off :
  sane d -> vfs_request count off -> off < size d ->
  off + readable d count off <= capacity d ->
  ilium_read false d count off
  = Returns (mk_io (readable d count off) d (off + readable d count off)
               (ztake (readable d count off) (zdrop off (data d)))).
Proof.
  intros Hs Hq Hlt Hfit.
  pose proof (readable_bounds d count off Hq Hlt) as (Hn & Hn').
  pose proof (read_count d count off Hs Hq Hlt) as Hcount.
  destruct Hs as (Hlen & Hcap & Hsz). destruct Hq as (Ho & Hc0 & Hc).
  pose proof max_rw_count_small as Hm.
  unfold ilium_read. cbn [down_interruptible Z.eqb negb].
  replace (off >=? size d) with false
    by (symmetry; rewrite Z.geb_leb; apply Z.leb_gt; lia).
  cbv zeta. rewrite Hcount. unfold copy_to_user.
  replace ((0 <=? off) && (0 <=? readable d count off)
           && (off + readable d count off <=? rlen (data d)))
    with true by guard_holds.
  cbn [bind]. rewrite wrap_s32_id, wrap_s64_id by lia. reflexivity.
Qed.

Lemma read_overrun d count off :
  sane d -> vfs_request count off -> off < size d ->
  capacity d < off + readable d count off ->
  ilium_read false d count off = Faults.
Proof.
  intros Hs Hq Hlt Hover.
  pose proof (read_count d count off Hs Hq Hlt) as Hcount.
  destruct Hs as (Hlen & Hcap & Hsz).
  unfold ilium_read. cbn [down_interruptible Z.eqb negb].
  replace (off >=? size d) with false
    by (symmetry; rewrite Z.geb_leb; apply Z.leb_gt; lia).
  cbv zeta. rewrite Hcount. unfold copy_to_user.
  replace (off + readable d count off <=? rlen (data d)) with false
    by (symmetry; apply Z.leb_gt; lia).
  now rewrite andb_false_r.
Qed.

End ReadMore.

(** X1: from a state with [size <= capacity], a read below [size]
    delivers [min count (size - off)] bytes, exactly the buffer's bytes
    from [off] on, returns that number, advances [*offp] by it and leaves
    the device untouched. *)
Theorem X1_read_delivers_counted_bytes :
  forall d count off,
    wf d -> vfs_request count off -> off < size d ->
    let n := Z.min count (size d - off) in
    ilium_read false d count off
    = Returns (mk_io n d (off + n) (ztake n (zdrop off (data d)))) /\
    rlen (ztake n (zdrop off (data d))) = n.
Proof.
  intros d count off [Hs Hle] Hq Hlt n.
  pose proof (readable_bounds d count off Hq Hlt) as (Hn & Hn').
  fold (readable d count off) in n. subst n.
  pose proof Hs as (Hlen & _ & _). destruct Hq as (Ho & Hc).
  split.
  - apply read_within; try assumption; [split; assumption | lia].
  - rewrite rlen_ztake; [reflexivity|].
    rewrite rlen_zdrop by lia. lia.
Qed.

Lemma X1_read_delivers_counted_bytes_witness :
  ilium_read false small_dev 10 1
  = Returns (mk_io 3 small_dev (1 + 3) [x0b; x0c; x0d]) /\
  rlen [x0b; x0c; x0d] = 3.
Proof.
  apply (X1_read_delivers_counted_bytes small_dev 10 1).
  - unfold wf, sane. vm_compute. repeat split; congruence.
  - unfold vfs_request. vm_compute. repeat split; congruence.
  - reflexivity.
Defined.

(** X2: two reads in a row deliver what one read of the summed count
    delivers: when the first read ends below [size], the bytes of the
    second follow those of the first, and counts and final position add
    up. *)
Theorem X2_reads_compose :
  forall d c1 c2 off,
    wf d -> 0 <= off -> 0 <= c1 -> 0 <= c2 -> c1 + c2 <= MAX_RW_COUNT ->
    off + c1 < size d ->
    exists r1 r2 r,
      ilium_read false d c1 off = Returns r1 /\
      ilium_read false d c2 (offp_after r1) = Returns r2 /\
      ilium_read false d (c1 + c2) off = Returns r /\
      retval r1 = c1 /\
      retval r = retval r1 + retval r2 /\
      delivered r = delivered r1 ++ delivered r2 /\
      offp_after r = offp_after r2.
Proof.
  intros d c1 c2 off [Hs Hle] Ho H1 H2 Hsum Hlt.
  pose proof Hs as (Hlen & Hcap & Hsz).
  assert (Hq1 : vfs_request c1 off) by (unfold vfs_request; lia).
  assert (Hq2 : vfs_request c2 (off + c1)) by (unfold vfs_request; lia).
  assert (Hq : vfs_request (c1 + c2) off) by (unfold vfs_request; lia).
  assert (Hn1 : readable d c1 off = c1) by (unfold readable; lia).
  assert (Hn : readable d (c1 + c2) off = c1 + readable d c2 (off + c1))
    by (unfold readable; lia).
  assert (Hn2 : 0 <= readable d c2 (off + c1) <= size d - (off + c1))
    by (unfold readable; lia).
  pose proof (read_within d c1 off Hs Hq1) as R1.
  pose proof (read_within d c2 (off + c1) Hs Hq2) as R2.
  pose proof (read_within d (c1 + c2) off Hs Hq) as R.
  rewrite Hn1 in R1. rewrite Hn in R.
  eexists. eexists. eexists.
  split; [apply R1; lia|].
  cbn [offp_after].
  split; [apply R2; lia|].
  split; [apply R; lia|].
  cbn [retval delivered offp_after].
  split; [reflexivity|]. split; [reflexivity|]. split; [|lia].
  rewrite ztake_add by lia.
  now rewrite zdrop_zdrop by lia.
Qed.

Lemma X2_reads_compose_witness :
  exists r1 r2 r,
    ilium_read false small_dev 1 1 = Returns r1 /\
    ilium_read false small_dev 5 (offp_after r1) = Returns r2 /\
    ilium_read false small_dev (1 + 5) 1 = Returns r /\
    retval r1 = 1 /\
    retval r = retval r1 + retval r2 /\
    delivered r = delivered r1 ++ delivered r2 /\
    offp_after r = offp_after r2.
Proof.
  apply (X2_reads_compose small_dev 1 5 1).
  - unfold wf, sane. vm_compute. repeat split; congruence.
  - vm_compute. discriminate.
  - vm_compute. discriminate.
  - vm_compute. discriminate.
  - vm_compute. discriminate.
  - reflexivity.
Defined.

(** X3: whatever the arguments, and whether or not the wait was
    interrupted, a seek either leaves the file as it was (returning
    [-EFAULT], or the old position for an unknown [whence]) or moves it
    to a position below [size] and returns that position; so it never
    moves a position to or past [size]. *)
Theorem X3_seek_lands_below_size :
  forall sig d f off whence,
    let r := ilium_llseek sig d f off whence in
    (file_after r = f /\
     (seek_retval r = - EFAULT \/ seek_retval r = f_pos f)) \/
    (f_pos (file_after r) < size d /\
     seek_retval r = f_pos (file_after r)).
Proof.
  intros sig d f off whence. cbv zeta. unfold ilium_llseek.
  destruct sig; cbn [down_interruptible Z.eqb negb].
  - left. split; [reflexivity | left; reflexivity].
  - destruct (whence =? SEEK_SET).
    + destruct (off >=? size d) eqn:E.
      * left. split; [reflexivity | left; reflexivity].
      * right. cbn [file_after f_pos seek_retval].
        rewrite Z.geb_leb in E. apply Z.leb_gt in E. split; [lia|reflexivity].
    + destruct (whence =? SEEK_CUR).
      * destruct (wrap_s64 (f_pos f + off) >=? size d) eqn:E.
        -- left. split; [reflexivity | left; reflexivity].
        -- right. cbn [file_after f_pos seek_retval].
           rewrite Z.geb_leb in E. apply Z.leb_gt in E.
           split; [lia|reflexivity].
      * destruct (whence =? SEEK_END).
        -- destruct (wrap_s64 (wrap_s64 (size d - 1) + off) >=? size d) eqn:E.
           ++ left. split; [reflexivity | left; reflexivity].
           ++ right. cbn [file_after f_pos seek_retval].
              rewrite Z.geb_leb in E. apply Z.leb_gt in E.
              split; [lia|reflexivity].
        -- left. split; [reflexivity | right; reflexivity].
Qed.

(** X4: [ilium_init] returns [-ENOMEM] when the 2^5 pages are refused
    and the error of [alloc_chrdev_region] when the region is refused, in
    both cases without a device; otherwise it returns 0, whatever
    [cdev_add] returned, and the device is [initial_dev], all zeros,
    whatever the pages held before. *)
Theorem X4_init_zeroes_the_pages :
  forall alloc region_err cdev_ret,
    ilium_init alloc region_err cdev_ret
    = match alloc 5 with
      | None => Returns (- ENOMEM, None)
      | Some _ =>
          if region_err <? 0 then Returns (region_err, None)
          else Returns (0, Some initial_dev)
      end /\
    data initial_dev = zfill x00 131072 /\
    size initial_dev = 0 /\ capacity initial_dev = 131072.
Proof.
  intros alloc region_err cdev_ret. split; [|repeat split].
  destruct (alloc 5) as [junk|] eqn:Ha.
  - destruct (Z.ltb_spec region_err 0) as [Hneg|Hok].
    + unfold ilium_init, get_free_pages. cbv zeta. rewrite Ha.
      replace (region_err <? 0) with true by (symmetry; apply Z.ltb_lt; lia).
      change (Z.shiftl PAGE_SIZE 5) with 131072.
      rewrite wrap_u64_id by lia. unfold memset.
      replace ((0 <=? 0) && (0 <=? 131072)
               && (0 + 131072 <=? rlen (map junk (seq 0 (Z.to_nat 131072)))))
        with true
        by (symmetry; rewrite !andb_true_iff, !Z.leb_le;
            rewrite rlen_fresh by lia; lia).
      reflexivity.
    + now apply (ilium_init_gives_initial alloc junk).
  - unfold ilium_init, get_free_pages. cbv zeta. now rewrite Ha.
Qed.

(** X5: from a state with [size <= capacity], a write at or below [size]
    always returns, whatever the allocator answers: the loop ends, no copy
    leaves its region, the count returned lies between 0 and the count
    asked for, the buffer still has exactly [capacity] bytes and the
    capacity has not gone down. *)
Theorem X5_write_is_safe_within_invariant :
  forall alloc d buf count off,
    wf d -> vfs_request count off -> off <= size d -> count <= rlen buf ->
    exists r,
      ilium_write false alloc d buf count off = Returns r /\
      0 <= retval r <= count /\
      rlen (data (dev_after r)) = capacity (dev_after r) /\
      capacity d <= capacity (dev_after r).
Proof.
  intros alloc d buf count off Hw Hq Hle Hbuf.
  destruct (write_total alloc d buf count off Hw Hq Hle Hbuf) as [r Hr].
  exists r. split; [assumption|].
  destruct (write_returns_inv alloc d buf count off r (proj1 Hw) Hq Hle Hr)
    as (k & n & _ & _ & Hsg & _ & Hn & Hfit & Hnb & ->).
  destruct Hw as [(_ & Hcap & _) _]. destruct Hq as (Ho & _).
  pose proof Hsg as (Hglen & _ & _).
  cbn [write_result retval dev_after data capacity].
  split; [exact Hn|]. split.
  - rewrite !rlen_app, !rlen_ztake, rlen_zdrop by lia. lia.
  - apply (grow_times_capacity_mono 0 k d); lia.
Qed.

Lemma X5_write_is_safe_within_invariant_witness :
  exists r,
    ilium_write false grant_once small_dev (zfill x07 30) 30 2 = Returns r /\
    0 <= retval r <= 30 /\
    rlen (data (dev_after r)) = capacity (dev_after r) /\
    capacity small_dev <= capacity (dev_after r).
Proof.
  apply (X5_write_is_safe_within_invariant grant_once small_dev
           (zfill x07 30) 30 2).
  - unfold wf, sane. vm_compute. repeat split; congruence.
  - unfold vfs_request. vm_compute. repeat split; congruence.
  - vm_compute. discriminate.
  - vm_compute. discriminate.
Defined.

(** X6: once more is counted than the buffer holds, a write that starts
    beyond the capacity (which the bounds check lets through, the offset
    being at most [size]) leaves the buffer whatever the allocator
    answers: refused, the clipped count [capacity - off] is negative and
    wraps to a huge [size_t]; granted, the copy of [size] old bytes reads
    past the old buffer. *)
Theorem X6_write_beyond_capacity_faults :
  forall alloc d buf count off,
    sane d -> vfs_request count off ->
    capacity d < off -> off <= size d ->
    ilium_write false alloc d buf count off = Faults.
Proof.
  intros alloc d buf count off Hs Hq Hover Hle. now apply write_overrun.
Qed.

Lemma X6_write_beyond_capacity_faults_witness :
  ilium_write false refuse_all overcounted_dev [x01] 1 9 = Faults /\
  ilium_write false grant_all overcounted_dev [x01] 1 9 = Faults.
Proof.
  split.
  - apply (X6_write_beyond_capacity_faults refuse_all overcounted_dev [x01] 1 9).
    + unfold sane. vm_compute. repeat split; congruence.
    + unfold vfs_request. vm_compute. repeat split; congruence.
    + reflexivity.
    + vm_compute. discriminate.
  - apply (X6_write_beyond_capacity_faults grant_all overcounted_dev [x01] 1 9).
    + unfold sane. vm_compute. repeat split; congruence.
    + unfold vfs_request. vm_compute. repeat split; congruence.
    + reflexivity.
    + vm_compute. discriminate.
Defined.

(** X7: a read is clipped to [size], not to the capacity: when the bytes
    it is entitled to, [min count (size - off)] from [off], end beyond the
    capacity, [copy_to_user] reads past the end of the buffer. *)
Theorem X7_read_beyond_capacity_faults :
  forall d count off,
    sane d -> vfs_request count off -> off < size d ->
    capacity d < off + Z.min count (size d - off) ->
    ilium_read false d count off = Faults.
Proof.
  intros d count off Hs Hq Hlt Hover. now apply read_overrun.
Qed.

Lemma X7_read_beyond_capacity_faults_witness :
  ilium_read false overcounted_dev 4 6 = Faults.
Proof.
  apply (X7_read_beyond_capacity_faults overcounted_dev 4 6).
  - unfold sane. vm_compute. repeat split; congruence.
  - unfold vfs_request. vm_compute. repeat split; congruence.
  - reflexivity.
  - reflexivity.
Defined.

Section WriteMore.

Variable alloc : allocator.

Lemma grow_times_tail_zero k d :
  sane d -> ((0 < k)%nat -> size d <= capacity d) ->
  tail_zero d -> tail_zero (grow_times k d).
Proof.
  intros (Hlen & Hcap & Hsz) Hle Ht. destruct k as [|k]; [exact Ht|].
  assert (size d <= capacity d) by (apply Hle; lia).
  unfold tail_zero.
  rewrite grow_times_data, grow_times_size, grow_times_capacity by lia.
  apply zdrop_app_exact. apply rlen_ztake. lia.
Qed.

(** Doubling keeps every byte of the buffer and appends zeros. *)
Lemma grow_times_keeps_data k d :
  wf d -> tail_zero d ->
  data (grow_times k d)
  = data d ++ zfill x00 (capacity (grow_times k d) - capacity d).
Proof.
  intros [(Hlen & Hcap & Hsz) Hle] Ht. destruct k as [|k].
  - cbn [grow_times]. rewrite zfill_nonpos by lia. now rewrite app_nil_r.
  - assert (1 <= 2 ^ Z.of_nat (S k)) by (apply (Z.pow_le_mono_r 2 0); lia).
    rewrite grow_times_data, grow_times_capacity by lia.
    rewrite <- (ztake_zdrop_id (size d) (data d)) at 2.
    rewrite Ht, <- app_assoc, <- zfill_add by nia.
    f_equal. f_equal. lia.
Qed.

Lemma write_result_tail_zero g buf off n :
  sane g -> tail_zero g ->
  0 <= off <= size g -> 0 <= n -> off + n <= capacity g -> n <= rlen buf ->
  tail_zero (dev_after (write_result g buf off n)).
Proof.
  intros (Hlen & Hcap & Hsz) Ht Ho Hn Hfit Hbuf.
  unfold tail_zero, write_result. cbn [dev_after data size capacity].
  rewrite app_assoc.
  rewrite zdrop_app_r by (rewrite rlen_app, !rlen_ztake by lia; lia).
  rewrite rlen_app, !rlen_ztake by lia.
  destruct (Z_le_gt_dec (size g + n) (capacity g)) as [Hin|Hout].
  - rewrite zdrop_zdrop by lia.
    replace (off + n + (size g + n - (off + n))) with (size g + n) by lia.
    rewrite <- zdrop_zdrop by lia. rewrite Ht.
    rewrite zdrop_zfill by lia. f_equal. lia.
  - rewrite (zfill_nonpos x00 (capacity g - (size g + n))) by lia.
    apply zdrop_all. rewrite rlen_zdrop by lia. lia.
Qed.

End WriteMore.

(** X8: what a write leaves behind does not depend on what the pages it
    obtains held before: two allocators that refuse the same requests
    give the same result, byte for byte. *)
Theorem X8_fresh_pages_never_show :
  forall a1 a2 d buf count off,
    same_grants a1 a2 ->
    wf d -> vfs_request count off -> off <= size d -> count <= rlen buf ->
    ilium_write false a1 d buf count off
    = ilium_write false a2 d buf count off.
Proof.
  intros a1 a2 d buf count off Hsame Hw Hq Hle Hbuf.
  destruct (write_total a1 d buf count off Hw Hq Hle Hbuf) as [r Hr].
  rewrite Hr. symmetry.
  destruct (write_returns_inv a1 d buf count off r (proj1 Hw) Hq Hle Hr)
    as (k & n & Hp & _ & _ & He & _ & _ & _ & ->).
  apply write_exits_at; try assumption.
  - intros i Hi. destruct (Hp i Hi) as [Hneed Hgrant].
    split; [assumption|]. intros Hnone. apply Hgrant. now apply Hsame.
  - destruct He as [Hroom | Hneed Hnone].
    + now apply exit_room.
    + apply exit_refused; [assumption|]. now apply Hsame.
Qed.

Lemma X8_fresh_pages_never_show_witness :
  ilium_write false grant_all small_dev (zfill x07 12) 12 4
  = ilium_write false grant_dirty small_dev (zfill x07 12) 12 4.
Proof.
  apply (X8_fresh_pages_never_show grant_all grant_dirty small_dev
           (zfill x07 12) 12 4).
  - intros order. split; discriminate.
  - unfold wf, sane. vm_compute. repeat split; congruence.
  - unfold vfs_request. vm_compute. repeat split; congruence.
  - vm_compute. discriminate.
  - vm_compute. discriminate.
Defined.

(** X9: the bytes at and beyond [size] are zero on the fresh device, and
    every write that returns keeps them zero, grown or not: nothing but
    zeros lies beyond the counted bytes. *)
Theorem X9_zero_beyond_size :
  tail_zero initial_dev /\
  (forall alloc d buf count off r,
      sane d -> vfs_request count off -> tail_zero d ->
      ilium_write false alloc d buf count off = Returns r ->
      tail_zero (dev_after r)).
Proof.
  split.
  - unfold tail_zero, initial_dev. cbn [data size capacity].
    now rewrite Z.sub_0_r.
  - intros alloc d buf count off r Hs Hq Ht Hw.
    destruct (Z_le_gt_dec off (size d)) as [Hle|Hgt].
    + destruct (write_returns_inv alloc d buf count off r Hs Hq Hle Hw)
        as (k & n & _ & Hk & Hsg & _ & Hn & Hfit & Hnb & ->).
      destruct Hq as (Ho & _).
      apply write_result_tail_zero; try assumption; try lia.
      * now apply grow_times_tail_zero.
      * rewrite grow_times_size. lia.
    + rewrite write_out_of_range in Hw by lia.
      injection Hw as <-. exact Ht.
Qed.

Lemma X9_zero_beyond_size_witness :
  tail_zero (dev_after (write_result small_dev [x01; x02; x03] 2 3)).
Proof.
  apply (proj2 X9_zero_beyond_size refuse_all small_dev [x01; x02; x03] 3 2).
  - unfold sane. vm_compute. repeat split; congruence.
  - unfold vfs_request. vm_compute. repeat split; congruence.
  - reflexivity.
  - vm_compute. reflexivity.
Defined.

(** X10: a write loses nothing of the old buffer.  With zeros beyond
    [size], the buffer after the write is the old buffer, extended by
    zeros to the new capacity, with the bytes written laid over it at
    [off]: growth copies everything and only the written range changes. *)
Theorem X10_write_keeps_the_rest :
  forall alloc d buf count off r,
    wf d -> tail_zero d -> vfs_request count off -> off <= size d ->
    ilium_write false alloc d buf count off = Returns r ->
    let extended :=
      data d ++ zfill x00 (capacity (dev_after r) - capacity d) in
    data (dev_after r)
    = ztake off extended ++ ztake (retval r) buf
        ++ zdrop (off + retval r) extended.
Proof.
  intros alloc d buf count off r Hw Ht Hq Hle Hr extended.
  destruct (write_returns_inv alloc d buf count off r (proj1 Hw) Hq Hle Hr)
    as (k & n & _ & _ & _ & _ & _ & _ & _ & ->).
  subst extended. cbn [write_result dev_after data capacity retval].
  now rewrite <- grow_times_keeps_data.
Qed.

Lemma X10_write_keeps_the_rest_witness :
  data (dev_after (write_result (grow_times 1 small_dev) (zfill x07 30) 4 12))
  = ztake 4 (data small_dev ++ zfill x00 (16 - 8))
      ++ ztake 12 (zfill x07 30)
      ++ zdrop (4 + 12) (data small_dev ++ zfill x00 (16 - 8)).
Proof.
  apply (X10_write_keeps_the_rest grant_once small_dev (zfill x07 30) 30 4
           (write_result (grow_times 1 small_dev) (zfill x07 30) 4 12)).
  - unfold wf, sane. vm_compute. repeat split; congruence.
  - reflexivity.
  - unfold vfs_request. vm_compute. repeat split; congruence.
  - vm_compute. discriminate.
  - vm_compute. reflexivity.
Defined.

(** X11: a write never touches [pages_pow], and the capacity it leaves is
    the old one doubled some number of times; so once a write has grown
    the buffer, [PAGE_SIZE << pages_pow] is no longer its capacity, while
    [pages_pow] is what the module passes to [free_pages]. *)
Theorem X11_pages_pow_is_stale_after_growth :
  forall alloc d buf count off r,
    sane d -> vfs_request count off ->
    ilium_write false alloc d buf count off = Returns r ->
    pages_pow (dev_after r) = pages_pow d /\
    (exists k : nat, capacity (dev_after r) = capacity d * 2 ^ Z.of_nat k) /\
    (capacity d = Z.shiftl PAGE_SIZE (pages_pow d) ->
     capacity d < capacity (dev_after r) ->
     capacity (dev_after r)
     <> Z.shiftl PAGE_SIZE (pages_pow (dev_after r))).
Proof.
  intros alloc d buf count off r Hs Hq Hw.
  assert (Hpp : pages_pow (dev_after r) = pages_pow d /\
                exists k : nat,
                  capacity (dev_after r) = capacity d * 2 ^ Z.of_nat k).
  { destruct (Z_le_gt_dec off (size d)) as [Hle|Hgt].
    - destruct (write_returns_inv alloc d buf count off r Hs Hq Hle Hw)
        as (k & n & _ & _ & _ & _ & _ & _ & _ & ->).
      cbn [write_result dev_after pages_pow capacity].
      split; [apply grow_times_pages_pow|].
      exists k. apply grow_times_capacity.
    - rewrite write_out_of_range in Hw by lia. injection Hw as <-.
      cbn [dev_after]. split; [reflexivity|].
      exists 0%nat. change (2 ^ Z.of_nat 0) with 1. ring. }
  destruct Hpp as [Hpp Hk]. split; [exact Hpp|]. split; [exact Hk|].
  intros Heq Hlt. rewrite Hpp, <- Heq. lia.
Qed.

Lemma X11_pages_pow_is_stale_after_growth_witness :
  pages_pow
    (dev_after (write_result (grow_times 1 small_dev) (zfill x07 30) 4 12))
  = pages_pow small_dev /\
  (exists k : nat,
      capacity
        (dev_after (write_result (grow_times 1 small_dev) (zfill x07 30) 4 12))
      = capacity small_dev * 2 ^ Z.of_nat k).
Proof.
  destruct (X11_pages_pow_is_stale_after_growth grant_once small_dev
              (zfill x07 30) 30 4
              (write_result (grow_times 1 small_dev) (zfill x07 30) 4 12))
    as (Hpp & Hk & _).
  - unfold sane. vm_compute. repeat split; congruence.
  - unfold vfs_request. vm_compute. repeat split; congruence.
  - vm_compute. reflexivity.
  - split; assumption.
Defined.

(** X12: what a write stored can be read back even when the write was
    cut short: after a write that returned [n > 0], a read of [n] bytes
    at the same offset delivers the first [n] bytes of the data. *)
Theorem X12_read_back_what_was_stored :
  forall alloc d buf count off r,
    sane d -> vfs_request count off ->
    ilium_write false alloc d buf count off = Returns r ->
    0 < retval r ->
    ilium_read false (dev_after r) (retval r) off
    = Returns (mk_io (retval r) (dev_after r) (off + retval r)
                 (ztake (retval r) buf)).
Proof.
  intros alloc d buf count off r Hs Hq Hw Hret.
  pose proof Hq as (Ho & Hc0 & Hc).
  pose proof max_rw_count_small as Hm.
  assert (Hle : off <= size d).
  { destruct (Z_le_gt_dec off (size d)) as [Hle|Hgt]; [assumption|].
    rewrite write_out_of_range in Hw by lia.
    injection Hw as <-. cbn [retval] in Hret. unfold EFAULT in Hret. lia. }
  destruct (write_returns_inv alloc d buf count off r Hs Hq Hle Hw)
    as (k & n & _ & _ & Hsg & _ & Hn & Hfit & Hnb & ->).
  cbn [write_result retval] in Hret.
  destruct Hs as (_ & _ & Hsz). destruct Hsg as (Hglen & Hgcap & _).
  unfold ilium_read, write_result.
  cbn [down_interruptible Z.eqb negb dev_after size data retval].
  rewrite grow_times_size.
  replace (off >=? size d + n) with false
    by (symmetry; rewrite Z.geb_leb; apply Z.leb_gt; lia).
  rewrite !wrap_u64_id by lia.
  replace (off + n >? size d + n) with false
    by (symmetry; rewrite Z.gtb_ltb; apply Z.ltb_ge; lia).
  rewrite copy_to_user_stored by (rewrite ?rlen_ztake; lia).
  cbn [bind]. rewrite wrap_s32_id, wrap_s64_id by lia. reflexivity.
Qed.

Lemma X12_read_back_what_was_stored_witness :
  ilium_read false
    (dev_after (write_result (grow_times 1 small_dev) (zfill x07 30) 4 12))
    12 4
  = Returns
      (mk_io 12
         (dev_after (write_result (grow_times 1 small_dev) (zfill x07 30) 4 12))
         (4 + 12) (ztake 12 (zfill x07 30))).
Proof.
  apply (X12_read_back_what_was_stored grant_once small_dev
           (zfill x07 30) 30 4
           (write_result (grow_times 1 small_dev) (zfill x07 30) 4 12)).
  - unfold sane. vm_compute. repeat split; congruence.
  - unfold vfs_request. vm_compute. repeat split; congruence.
  - vm_compute. reflexivity.
  - reflexivity.
Defined.

(** X13: a write moves [size] and [*offp] by the same amount, so the
    distance from the position to [size] stays what it was; after a write
    that started at [size] the position is [size] again, where a read
    returns [-EFAULT] and a seek to that position is refused. *)
Theorem X13_position_after_write :
  forall alloc d buf count off r,
    sane d -> vfs_request count off -> off <= size d ->
    ilium_write false alloc d buf count off = Returns r ->
    size (dev_after r) - offp_after r = size d - off /\
    (off = size d ->
     forall c f,
       ilium_read false (dev_after r) c (offp_after r)
       = Returns (mk_io (- EFAULT) (dev_after r) (offp_after r) []) /\
       ilium_llseek false (dev_after r) f (offp_after r) SEEK_SET
       = mk_seek (- EFAULT) f).
Proof.
  intros alloc d buf count off r Hs Hq Hle Hw.
  destruct (write_returns_inv alloc d buf count off r Hs Hq Hle Hw)
    as (k & n & _ & _ & _ & _ & _ & _ & _ & ->).
  cbn [write_result dev_after size offp_after]. rewrite grow_times_size.
  split; [lia|]. intros -> c f. split.
  - apply read_out_of_range. cbn [size]. lia.
  - unfold ilium_llseek. cbn [down_interruptible Z.eqb negb SEEK_SET size].
    replace (size d + n >=? size d + n) with true
      by (symmetry; rewrite Z.geb_leb; apply Z.leb_refl).
    reflexivity.
Qed.

Lemma X13_position_after_write_witness :
  size (dev_after (write_result small_dev [x01; x02] 4 2))
  - offp_after (write_result small_dev [x01; x02] 4 2)
  = size small_dev - 4 /\
  ilium_read false (dev_after (write_result small_dev [x01; x02] 4 2)) 1
    (offp_after (write_result small_dev [x01; x02] 4 2))
  = Returns (mk_io (- EFAULT)
               (dev_after (write_result small_dev [x01; x02] 4 2))
               (offp_after (write_result small_dev [x01; x02] 4 2)) []).
Proof.
  destruct (X13_position_after_write refuse_all small_dev [x01; x02] 2 4
              (write_result small_dev [x01; x02] 4 2)) as [Hdist Hend].
  - unfold sane. vm_compute. repeat split; congruence.
  - unfold vfs_request. vm_compute. repeat split; congruence.
  - vm_compute. discriminate.
  - vm_compute. reflexivity.
  - split; [exact Hdist|].
    exact (proj1 (Hend eq_refl 1 (mk_file 0))).
Defined.

Section Appends.

Variable alloc : allocator.

Lemma ztake_app_exact n r1 r2 : rlen r1 = n -> ztake n (r1 ++ r2) = r1.
Proof.
  intros H. pose proof (rlen_nonneg r1).
  rewrite ztake_app_l by lia. apply ztake_all. lia.
Qed.

(** The buffer after an append: the counted bytes, the bytes stored, and
    zeros up to the capacity. *)
Lemma append_shape k d buf n :
  wf d -> tail_zero d -> sane (grow_times k d) ->
  0 <= n -> size d + n <= capacity (grow_times k d) -> n <= rlen buf ->
  data (dev_after (write_result (grow_times k d) buf (size d) n))
  = ztake (size d) (data d) ++ ztake n buf
      ++ zfill x00 (capacity (grow_times k d) - size d - n).
Proof.
  intros Hw Ht Hsg Hn Hfit Hbuf.
  pose proof Hw as [(Hlen & Hcap & Hsz) Hle].
  pose proof (grow_times_tail_zero k d (proj1 Hw) (fun _ => Hle) Ht) as Htg.
  unfold tail_zero in Htg. rewrite grow_times_size in Htg.
  cbn [write_result dev_after data]. f_equal; [|f_equal].
  - rewrite grow_times_keeps_data by assumption.
    apply ztake_app_l. lia.
  - rewrite <- zdrop_zdrop by lia. rewrite Htg.
    rewrite zdrop_zfill by lia. reflexivity.
Qed.

Lemma order_asked_same d1 d2 :
  capacity d1 = capacity d2 -> order_asked d1 = order_asked d2.
Proof. intros H. unfold order_asked. now rewrite H. Qed.

End Appends.

(** X15: an append can be split.  On a device with [size <= capacity] and
    zeros beyond [size], writing [buf1] at [size] in full and then [buf2]
    at the position the first write left gives the device, the position
    and the total count that one write of [buf1 ++ buf2] at [size] gives,
    whatever the allocator grants or refuses on the way. *)
Theorem X15_appends_compose :
  forall alloc d buf1 buf2 c1 c2 r1,
    wf d -> tail_zero d ->
    0 <= c1 -> 0 <= c2 -> c1 + c2 <= MAX_RW_COUNT ->
    rlen buf1 = c1 -> rlen buf2 = c2 ->
    size d + c1 + c2 < 2 ^ 61 ->
    ilium_write false alloc d buf1 c1 (size d) = Returns r1 ->
    retval r1 = c1 ->
    exists r2 r,
      ilium_write false alloc (dev_after r1) buf2 c2 (offp_after r1)
      = Returns r2 /\
      ilium_write false alloc d (buf1 ++ buf2) (c1 + c2) (size d)
      = Returns r /\
      dev_after r = dev_after r2 /\
      offp_after r = offp_after r2 /\
      retval r = c1 + retval r2.
Proof.
  intros alloc d buf1 buf2 c1 c2 r1 Hw Ht H1 H2 Hsum Hb1 Hb2 Hbound Hr1 Hret.
  pose proof Hw as [Hs Hle]. pose proof Hs as (Hlen & Hcap & Hsz).
  pose proof max_rw_count_small as Hm.
  assert (Hq1 : vfs_request c1 (size d)) by (unfold vfs_request; lia).
  assert (Hq : vfs_request (c1 + c2) (size d)) by (unfold vfs_request; lia).
  assert (Hq2 : vfs_request c2 (size d + c1)) by (unfold vfs_request; lia).
  (* the first write *)
  destruct (write_returns_inv alloc d buf1 c1 (size d) r1 Hs Hq1
              (Z.le_refl _) Hr1)
    as (k1 & n1 & Hp1 & _ & Hsg1 & _ & _ & Hfit1 & _ & ->).
  cbn [write_result retval] in Hret. subst n1.
  set (d1 := dev_after (write_result (grow_times k1 d) buf1 (size d) c1)).
  assert (Hc1 : capacity d1 = capacity (grow_times k1 d)) by reflexivity.
  assert (Hz1 : size d1 = size d + c1)
    by (unfold d1; cbn [write_result dev_after size];
        now rewrite grow_times_size).
  assert (Hs1 : sane d1).
  { apply write_result_sane; try assumption; try lia.
    rewrite grow_times_size. lia. }
  assert (Hw1 : wf d1) by (split; [assumption | lia]).
  assert (Ht1 : tail_zero d1).
  { apply write_result_tail_zero; try assumption; try lia.
    - apply grow_times_tail_zero; try assumption. intros _; assumption.
    - rewrite grow_times_size. lia. }
  assert (Hd1 : data d1 = ztake (size d) (data d) ++ buf1
                  ++ zfill x00 (capacity d1 - size d - c1)).
  { unfold d1. rewrite append_shape by (try assumption; lia).
    now rewrite (ztake_all c1 buf1) by lia. }
  (* the second write *)
  change (offp_after (write_result (grow_times k1 d) buf1 (size d) c1))
    with (size d + c1).
  change (dev_after (write_result (grow_times k1 d) buf1 (size d) c1)) with d1.
  assert (Hle2 : size d + c1 <= size d1) by lia.
  destruct (write_total alloc d1 buf2 c2 (size d + c1) Hw1 Hq2 Hle2)
    as [r2 Hr2]; [lia|].
  destruct (write_returns_inv alloc d1 buf2 c2 (size d + c1) r2 Hs1 Hq2
              Hle2 Hr2)
    as (k2 & n2 & Hp2 & _ & Hsg2 & He2 & Hn2 & Hfit2 & Hnb2 & ->).
  assert (Hcap2 : capacity (grow_times k2 d1)
                  = capacity (grow_times (k1 + k2) d)).
  { rewrite !grow_times_capacity, Hc1, grow_times_capacity.
    rewrite Nat2Z.inj_add, Z.pow_add_r by lia. ring. }
  assert (Hsg : sane (grow_times (k1 + k2) d)).
  { apply grow_times_sane; try assumption; [intros _; assumption|].
    rewrite <- grow_times_capacity, <- Hcap2. destruct Hsg2 as (_ & ? & _).
    lia. }
  (* the single write leaves the loop where the second one does *)
  assert (Hp : granted_upto alloc d (c1 + c2) (size d) (k1 + k2)).
  { intros i Hi. destruct (Nat.lt_ge_cases i k1) as [Hlt|Hge].
    - destruct (Hp1 i Hlt) as [Hneed Hgrant]. split; [lia | assumption].
    - destruct (Hp2 (i - k1)%nat) as [Hneed Hgrant]; [lia|].
      assert (Hci : capacity (grow_times (i - k1) d1)
                    = capacity (grow_times i d)).
      { rewrite !grow_times_capacity, Hc1, grow_times_capacity.
        rewrite <- Z.mul_assoc, <- Z.pow_add_r by lia.
        do 2 f_equal. lia. }
      split; [lia|].
      now rewrite <- (order_asked_same _ _ Hci). }
  assert (He : loop_exit alloc (grow_times (k1 + k2) d) (c1 + c2) (size d)
                 (c1 + n2)).
  { destruct He2 as [Hroom | Hneed Hnone].
    - apply exit_room. lia.
    - rewrite (wrap_u64_id (capacity (grow_times k2 d1) - (size d + c1)))
        by lia.
      replace (c1 + (capacity (grow_times k2 d1) - (size d + c1)))
        with (wrap_u64 (capacity (grow_times (k1 + k2) d) - size d))
        by (rewrite wrap_u64_id by lia; lia).
      apply exit_refused; [lia|].
      now rewrite <- (order_asked_same _ _ Hcap2). }
  exists (write_result (grow_times k2 d1) buf2 (size d + c1) n2).
  exists (write_result (grow_times (k1 + k2) d) (buf1 ++ buf2) (size d)
            (c1 + n2)).
  split; [exact Hr2|]. split.
  { apply write_exits_at; try assumption; try lia.
    rewrite rlen_app. lia. }
  split; [|split; [cbn [write_result offp_after]; lia | reflexivity]].
  (* the two devices, field by field *)
  assert (Hdata :
            data (dev_after (write_result (grow_times (k1 + k2) d)
                               (buf1 ++ buf2) (size d) (c1 + n2)))
            = data (dev_after (write_result (grow_times k2 d1) buf2
                                 (size d + c1) n2))).
  { rewrite append_shape
      by (try assumption; try lia; rewrite rlen_app; lia).
    rewrite <- Hz1.
    rewrite append_shape by (try assumption; lia).
    rewrite Hz1, Hd1, Hcap2.
    rewrite ztake_add by lia.
    rewrite (ztake_app_exact c1 buf1 buf2) by assumption.
    rewrite (zdrop_app_exact c1 buf1 buf2) by assumption.
    rewrite (app_assoc (ztake (size d) (data d)) buf1).
    rewrite ztake_app_exact
      by (rewrite rlen_app, rlen_ztake by lia; lia).
    rewrite <- !app_assoc. do 3 f_equal. f_equal. lia. }
  unfold write_result in *. cbn [dev_after data] in *.
  rewrite Hdata. f_equal.
  - rewrite !grow_times_size, Hz1. lia.
  - now rewrite Hcap2.
  - rewrite !grow_times_pages_pow. symmetry.
    exact (grow_times_pages_pow k1 d).
Qed.

Lemma X15_appends_compose_witness :
  exists r2 r,
    ilium_write false grant_once
      (dev_after (write_result small_dev [x01; x02] 4 2))
      [x03; x04; x05; x06; x07] 5
      (offp_after (write_result small_dev [x01; x02] 4 2))
    = Returns r2 /\
    ilium_write false grant_once small_dev
      ([x01; x02] ++ [x03; x04; x05; x06; x07]) (2 + 5) (size small_dev)
    = Returns r /\
    dev_after r = dev_after r2 /\
    offp_after r = offp_after r2 /\
    retval r = 2 + retval r2.
Proof.
  apply (X15_appends_compose grant_once small_dev [x01; x02]
           [x03; x04; x05; x06; x07] 2 5
           (write_result small_dev [x01; x02] 4 2)).
  - unfold wf, sane. vm_compute. repeat split; congruence.
  - reflexivity.
  - vm_compute. discriminate.
  - vm_compute. discriminate.
  - vm_compute. discriminate.
  - reflexivity.
  - reflexivity.
  - reflexivity.
  - vm_compute. reflexivity.
  - reflexivity.
Defined.

(** X16: empty requests do nothing.  From a state with [size <= capacity]
    a write of 0 bytes at or below [size] returns 0 and leaves the device
    and [*offp] exactly as they were, without asking the allocator; a read
    of 0 bytes below [size] returns 0 and delivers nothing. *)
Theorem X16_empty_requests_do_nothing :
  forall alloc d buf off,
    wf d -> 0 <= off ->
    (off <= size d ->
     ilium_write false alloc d buf 0 off = Returns (mk_io 0 d off [])) /\
    (off < size d ->
     ilium_read false d 0 off = Returns (mk_io 0 d off [])).
Proof.
  intros alloc d buf off [Hs Hle] Ho.
  pose proof Hs as (Hlen & Hcap & Hsz).
  assert (Hq : vfs_request 0 off)
    by (unfold vfs_request, MAX_RW_COUNT, PAGE_SIZE; lia).
  split.
  - intros Hoff.
    rewrite write_in_place
      by (try assumption; try lia; pose proof (rlen_nonneg buf); lia).
    unfold write_result. rewrite !Z.add_0_r.
    change (ztake 0 buf) with (@nil byte). cbn [app].
    rewrite ztake_zdrop_id. now destruct d.
  - intros Hoff.
    rewrite read_within by (try assumption; unfold readable; lia).
    replace (readable d 0 off) with 0 by (unfold readable; lia).
    now rewrite Z.add_0_r.
Qed.

Lemma X16_empty_requests_do_nothing_witness :
  ilium_write false refuse_all small_dev [] 0 3
  = Returns (mk_io 0 small_dev 3 []) /\
  ilium_read false small_dev 0 3 = Returns (mk_io 0 small_dev 3 []).
Proof.
  destruct (X16_empty_requests_do_nothing refuse_all small_dev [] 3)
    as [Hwrite Hread].
  - unfold wf, sane. vm_compute. repeat split; congruence.
  - vm_compute. discriminate.
  - split; [apply Hwrite | apply Hread].
    + vm_compute. discriminate.
    + reflexivity.
Defined.

(** X17: with the position at the end of a full buffer and the allocator
    refusing, a write of any positive count is clipped to nothing: it
    returns 0, no error, and leaves the device and [*offp] as they were,
    so a caller that reissues the remainder makes no progress. *)
Theorem X17_full_buffer_write_returns_zero :
  forall alloc d buf count off,
    sane d -> vfs_request count off ->
    off = capacity d -> off <= size d -> 0 < count ->
    alloc (order_asked d) = None ->
    ilium_write false alloc d buf count off = Returns (mk_io 0 d off []).
Proof.
  intros alloc d buf count off Hs Hq -> Hle Hpos Hnone.
  pose proof Hs as (Hlen & Hcap & Hsz). pose proof Hq as (Ho & Hc0 & Hc).
  pose proof max_rw_count_small as Hm.
  assert (Hcond : (wrap_u64 (capacity d + count) >? wrap_u64 (capacity d))
                  = true)
    by (apply (over_capacity_iff d count (capacity d) Hs Ho Hc0); lia).
  unfold ilium_write. cbn [down_interruptible Z.eqb negb].
  replace (capacity d >? size d) with false
    by (symmetry; rewrite Z.gtb_ltb; apply Z.ltb_ge; lia).
  change grow_fuel with (S 65).
  rewrite grow_refused by assumption. cbn [bind fst snd].
  rewrite Z.sub_diag. change (wrap_u64 0) with 0.
  unfold copy_from_user. pose proof (rlen_nonneg buf).
  replace ((0 <=? capacity d) && (0 <=? 0)
           && (capacity d + 0 <=? rlen (data d)) && (0 <=? rlen buf))
    with true by guard_holds.
  cbn [bind]. change (ztake 0 buf) with (@nil byte). cbn [app].
  rewrite !Z.add_0_r. rewrite ztake_zdrop_id.
  change (wrap_s32 0) with 0. rewrite !wrap_s64_id by lia.
  now destruct d.
Qed.

Lemma X17_full_buffer_write_returns_zero_witness :
  ilium_write false refuse_all
    (mk_dev [x0a; x0b; x0c; x0d] 4 4 0) [x01; x02] 2 4
  = Returns (mk_io 0 (mk_dev [x0a; x0b; x0c; x0d] 4 4 0) 4 []).
Proof.
  apply (X17_full_buffer_write_returns_zero refuse_all
           (mk_dev [x0a; x0b; x0c; x0d] 4 4 0) [x01; x02] 2 4).
  - unfold sane. vm_compute. repeat split; congruence.
  - unfold vfs_request. vm_compute. repeat split; congruence.
  - reflexivity.
  - vm_compute. discriminate.
  - reflexivity.
  - reflexivity.
Defined.
